(** * gt3: the fixed-timestep frame loop ([frameloop.go])

    A shallow embedding of the [Sim] scheduler of package [gt3] and the
    properties of its stepping loop, render gate, rate setters and op queue.

    Go's [float64] is Rocq's primitive binary64 [float], so sums, quotients
    and comparisons are those of the machine, infinities and NaN included;
    Go's [int] is [Z].

    The loop goroutine is modelled by explicit state passing over a [World]
    that holds the [*Sim] object together with what the loop observes of its
    surroundings: the GLFW timer, the closed channels, the goroutines blocked
    sending on a channel, and a log of every callback invocation.

    - A hook or op is the list of calls it makes on the scheduler
      ([SetFPS], [SetRenderFPS], closing a channel), given its arguments.
    - The timer is the sequence of its readings; each [glfw.GetTime()]
      takes the next one.
    - The two loops that need not end, the catch-up loop of [runSim] and
      the loop of [Run], are bounded: a call is [Running] when the bound
      is used up and [Returned] otherwise.
    - Other goroutines (rate changes, [Sched], [Sync], closing the stop
      channel) act between two iterations of the loop of [Run]. *)

From Stdlib Require Import ZArith List Bool Lia Floats String Sorted.
Import ListNotations.

Local Open Scope Z_scope.

(** ** Numbers *)

Definition float64 : Set := float.

(** [float64(n)] for an [int] [n]: the nearest binary64, ties to even. *)
Definition float64_of_int (n : Z) : float64 :=
  SF2Prim (binary_normalize prec emax n 0 false).

Definition min_int64 : Z := - 2 ^ 63.
Definition max_int64 : Z := 2 ^ 63 - 1.

(** Two's complement wrap-around of [int64] arithmetic. *)
Definition int64_wrap (z : Z) : Z := (z + 2 ^ 63) mod 2 ^ 64 - 2 ^ 63.

(** The integer part of a finite float (rounded toward zero). *)
Definition float64_trunc (f : float64) : option Z :=
  match Prim2SF f with
  | S754_zero _ => Some 0
  | S754_finite s m e =>
      let a := if 0 <=? e then Zpos m * 2 ^ e else Zpos m / 2 ^ (- e) in
      Some (if s then - a else a)
  | S754_infinity _ | S754_nan => None
  end.

(** [int64(f)]. Go leaves the result implementation-dependent when [f] is
    NaN, infinite or out of range; the value taken here is the one of the
    amd64 conversion instruction. *)
Definition int64_of_float64 (f : float64) : Z :=
  match float64_trunc f with
  | Some z => if (min_int64 <=? z) && (z <=? max_int64) then z else min_int64
  | None => min_int64
  end.

(** [math.Floor]. *)
Definition Floor (f : float64) : float64 :=
  match Prim2SF f with
  | S754_finite s m e =>
      if 0 <=? e then f
      else
        float64_of_int ((if s then Zneg m else Zpos m) / 2 ^ (- e))
  | _ => f
  end.

(** ** Calendar time *)

(** A [time.Time], as the seconds and nanoseconds since the Unix epoch. *)
Record Time : Set := mkTime { unix_sec : Z; unix_nsec : Z }.

(** [time.Unix(sec, nsec)]: nanoseconds outside [0, 999999999] are carried
    into the seconds. *)
Definition time_Unix (sec nsec : Z) : Time :=
  if (nsec <? 0) || (1000000000 <=? nsec) then
    let n := Z.quot nsec 1000000000 in
    let sec := int64_wrap (sec + n) in
    let nsec := nsec - n * 1000000000 in
    if nsec <? 0 then mkTime (int64_wrap (sec - 1)) (nsec + 1000000000)
    else mkTime sec nsec
  else mkTime sec nsec.

(** [float64(time.Second)]. *)
Definition time_Second : float64 := 1000000000%float.

Definition realtime (unixBase : Z) (base after : float64) : Time :=
  let real := (base + after)%float in
  let secs := int64_wrap (unixBase + int64_of_float64 real) in
  let frac := (real - Floor real)%float in
  let nanos := int64_of_float64 (time_Second * frac)%float in
  time_Unix secs nanos.

(** ** Ops, channels and the [Sim] object *)

(** What a callback does to the scheduler while it runs. Callbacks live
    outside the package, so they act on a [Sim] through its exported
    methods; the example program's hooks call [SetRenderFPS] and close the
    stop channel. [CallClose c] is [close] of channel number [c]. *)
Inductive Call : Set :=
| CallSetFPS (fps : Z)
| CallSetRenderFPS (fps : Z)
| CallClose (c : nat).

(** An [Op]: its [Do(step, frameTime, when)], as the calls it makes. *)
Definition Op : Set := float64 -> float64 -> Time -> list Call.

(** A channel value: [nil], or a channel obtained from [make]. *)
Inductive chan : Set :=
| chan_nil
| chan_ref (id : nat).

Definition chan_eqb (a b : chan) : bool :=
  match a, b with
  | chan_nil, chan_nil => true
  | chan_ref i, chan_ref j => Nat.eqb i j
  | _, _ => false
  end.

Record Sim : Set := mkSim {
  PreFrame : option Op;
  Frame : option Op;
  Render : option Op;
  fps : Z;
  hz : float64;
  rfps : Z;
  rhz : float64;
  runTime : Z;
  baseTime : float64;
  simTime : float64;
  renderTime : float64;
  sched : chan;
  stopped : chan
}.

(** Go's [error] values of this package; [None] is the [nil] error. *)
Inductive Err : Set := ErrBadFPS | ErrStopped.
Definition error : Set := option Err.

(** A call either returns or panics. *)
Inductive result (A : Type) : Type :=
| Returns (a : A)
| Panics (msg : string).
Arguments Returns {A} a.
Arguments Panics {A} msg.

Definition NewSim (n renderfps : Z) (stop : chan) : result Sim :=
  if n <=? 0 then Panics "gt3: simloop FPS must be > 0"
  else
    let r := if 0 <? renderfps then (1 / float64_of_int renderfps)%float
             else 0%float in
    Returns {| PreFrame := None; Frame := None; Render := None;
               fps := n;
               rfps := renderfps;
               hz := (1 / float64_of_int n)%float;
               rhz := r;
               runTime := 0;
               baseTime := 0%float; simTime := 0%float; renderTime := 0%float;
               sched := chan_nil;
               stopped := stop |}.

Definition set_rate (n : Z) (h : float64) (s : Sim) : Sim :=
  {| PreFrame := PreFrame s; Frame := Frame s; Render := Render s;
     fps := n; hz := h; rfps := rfps s; rhz := rhz s;
     runTime := runTime s; baseTime := baseTime s; simTime := simTime s;
     renderTime := renderTime s; sched := sched s; stopped := stopped s |}.

Definition set_render_rate (n : Z) (h : float64) (s : Sim) : Sim :=
  {| PreFrame := PreFrame s; Frame := Frame s; Render := Render s;
     fps := fps s; hz := hz s; rfps := n; rhz := h;
     runTime := runTime s; baseTime := baseTime s; simTime := simTime s;
     renderTime := renderTime s; sched := sched s; stopped := stopped s |}.

(** [SetRenderFPS]: returns the previous render rate. *)
Definition SetRenderFPS (n : Z) (s : Sim) : Z * Sim :=
  (rfps s, set_render_rate n (1 / float64_of_int n)%float s).

(** [SetFPS]: returns [(previous, err)]. *)
Definition SetFPS (n : Z) (s : Sim) : (Z * error) * Sim :=
  if n <? 0 then ((0, Some ErrBadFPS), s)
  else ((fps s, None), set_rate n (1 / float64_of_int n)%float s).

Definition set_simTime (t : float64) (s : Sim) : Sim :=
  {| PreFrame := PreFrame s; Frame := Frame s; Render := Render s;
     fps := fps s; hz := hz s; rfps := rfps s; rhz := rhz s;
     runTime := runTime s; baseTime := baseTime s; simTime := t;
     renderTime := renderTime s; sched := sched s; stopped := stopped s |}.

Definition set_renderTime (t : float64) (s : Sim) : Sim :=
  {| PreFrame := PreFrame s; Frame := Frame s; Render := Render s;
     fps := fps s; hz := hz s; rfps := rfps s; rhz := rhz s;
     runTime := runTime s; baseTime := baseTime s; simTime := simTime s;
     renderTime := t; sched := sched s; stopped := stopped s |}.

(** The assignments at the top of [Run]. *)
Definition set_started (c : chan) (ubase : Z) (base : float64) (s : Sim) : Sim :=
  {| PreFrame := PreFrame s; Frame := Frame s; Render := Render s;
     fps := fps s; hz := hz s; rfps := rfps s; rhz := rhz s;
     runTime := ubase; baseTime := base; simTime := 0%float;
     renderTime := renderTime s; sched := c; stopped := stopped s |}.

(** ** The world around the loop *)

(** Which callback an invocation belongs to: one of the three hooks, or
    the op handed over by the blocked sender number [g]. *)
Inductive Hook : Set :=
| HPreFrame
| HFrame
| HRender
| HOp (g : nat).

(** The log: a receive on the op channel, the start of a callback's [Do]
    with its arguments, each call that callback makes before it returns,
    and the [close(done)] that ends the op of a [Sync]. *)
Inductive Event : Set :=
| EvRecv (g : nat)
| EvDo (h : Hook) (step frameTime : float64) (when : Time)
| EvCall (c : Call)
| EvDone (g : nat).

(** A goroutine blocked in the [select] of [Sched] or [Sync]: the two
    channel operands were evaluated when it entered the [select]. *)
Record Sender : Set := mkSender {
  snd_id : nat;
  snd_chan : chan;
  snd_stop : chan;
  snd_op : Op;
  snd_sync : bool
}.

Record World : Type := mkWorld {
  sim : Sim;
  clock : nat -> float64;   (* successive readings of [glfw.GetTime] *)
  reads : nat;              (* how many readings were taken *)
  unix_now : Z;             (* [time.Now().Unix()] *)
  closed : list nat;        (* the closed channels *)
  sendq : list Sender;      (* blocked senders, oldest first *)
  next_chan : nat;          (* the next channel [make] returns *)
  next_go : nat;            (* the next goroutine number *)
  trace : list Event        (* the log, oldest first *)
}.

Definition set_sim (s : Sim) (w : World) : World :=
  mkWorld s (clock w) (reads w) (unix_now w) (closed w) (sendq w)
          (next_chan w) (next_go w) (trace w).

Definition set_sendq (q : list Sender) (w : World) : World :=
  mkWorld (sim w) (clock w) (reads w) (unix_now w) (closed w) q
          (next_chan w) (next_go w) (trace w).

Definition log (e : Event) (w : World) : World :=
  mkWorld (sim w) (clock w) (reads w) (unix_now w) (closed w) (sendq w)
          (next_chan w) (next_go w) (trace w ++ [e]).

Definition close_chan (c : nat) (w : World) : World :=
  mkWorld (sim w) (clock w) (reads w) (unix_now w) (c :: closed w) (sendq w)
          (next_chan w) (next_go w) (trace w).

(** [glfw.GetTime()]. *)
Definition GetTime (w : World) : float64 * World :=
  (clock w (reads w),
   mkWorld (sim w) (clock w) (S (reads w)) (unix_now w) (closed w) (sendq w)
           (next_chan w) (next_go w) (trace w)).

(** [make(chan Op)]. *)
Definition make_chan (w : World) : chan * World :=
  (chan_ref (next_chan w),
   mkWorld (sim w) (clock w) (reads w) (unix_now w) (closed w) (sendq w)
           (S (next_chan w)) (next_go w) (trace w)).

(** Whether a receive [<-c] can proceed on the stop channel [c]: never on
    a nil channel, always on a closed one. *)
Definition fired (w : World) (c : chan) : bool :=
  match c with
  | chan_nil => false
  | chan_ref i => existsb (Nat.eqb i) (closed w)
  end.

Definition do_call (c : Call) (w : World) : World :=
  match c with
  | CallSetFPS n => set_sim (snd (SetFPS n (sim w))) w
  | CallSetRenderFPS n => set_sim (snd (SetRenderFPS n (sim w))) w
  | CallClose i => close_chan i w
  end.

Definition do_calls (cs : list Call) (w : World) : World :=
  fold_left (fun w c => do_call c (log (EvCall c) w)) cs w.

(** [op.Do(hz, ft, rt)] on the loop goroutine; [h] is the step [hz]. *)
Definition Do (hk : Hook) (op : Op) (h ft : float64) (rt : Time) (w : World)
  : World :=
  do_calls (op h ft rt) (log (EvDo hk h ft rt) w).

(** The op a sender hands over: [Sched] sends the op itself, [Sync] sends
    [syncOp], which runs the op and then closes [done]. *)
Definition Do_sent (x : Sender) (h ft : float64) (rt : Time) (w : World)
  : World :=
  let w := Do (HOp (snd_id x)) (snd_op x) h ft rt w in
  if snd_sync x then log (EvDone (snd_id x)) w else w.

(** [s.Now()]. *)
Definition Now (w : World) : float64 * World :=
  let (t, w) := GetTime w in ((t - baseTime (sim w))%float, w).

(** ** The loop *)

(** Whether the sender [x] is blocked sending on the channel [c], so that
    a receive on [c] can take its op. A nil channel never takes part in a
    communication. *)
Definition on_chan (c : chan) (x : Sender) : bool :=
  chan_eqb (snd_chan x) c && negb (chan_eqb c chan_nil).

(** The receive case of the [select] in [pollSched]: the oldest sender
    blocked on [c], if there is one, leaves the queue. *)
Fixpoint recv (c : chan) (q : list Sender) : option (Sender * list Sender) :=
  match q with
  | [] => None
  | x :: q' =>
      if on_chan c x then Some (x, q')
      else match recv c q' with
           | Some (y, r) => Some (y, x :: r)
           | None => None
           end
  end.

(** The loop of [pollSched]; callbacks add no senders, so it ends within
    as many rounds as there are blocked senders. *)
Fixpoint pollLoop (n : nat) (c : chan) (h ft : float64) (rt : Time)
  (w : World) : World :=
  match recv c (sendq w) with
  | Some (x, q) =>
      match n with
      | O => w
      | S n' =>
          pollLoop n' c h ft rt
            (Do_sent x h ft rt (log (EvRecv (snd_id x)) (set_sendq q w)))
      end
  | None => w
  end.

Definition pollSched (h ft : float64) (rt : Time) (w : World) : World :=
  pollLoop (List.length (sendq w)) (sched (sim w)) h ft rt w.

Definition runOp (hk : Hook) (op : option Op) (h ft : float64) (rt : Time)
  (w : World) : World :=
  match op with
  | Some f => Do hk f h ft rt w
  | None => w
  end.

Definition frame (h ft : float64) (rt : Time) (w : World) : World :=
  let w := pollSched h ft rt w in
  runOp HFrame (Frame (sim w)) h ft rt w.

(** How far a call got: it returned [a], or it is still running when the
    bound on its loops is used up. Either way [w] is the world it left. *)
Inductive outcome (A : Type) : Type :=
| Returned (a : A) (w : World)
| Running (w : World).
Arguments Returned {A} a w.
Arguments Running {A} w.

Definition world_of {A : Type} (o : outcome A) : World :=
  match o with
  | Returned _ w => w
  | Running w => w
  end.

(** The catch-up loop of [runSim],
    [for now = s.Now(); sim < now; now = s.Now() { ... }], entered with the
    first reading [now] already taken. [fuel] bounds the number of passes.
    It returns the final [hz] and [now]. *)
Fixpoint stepLoop (fuel : nat) (ubase : Z) (base h sim0 now : float64)
  (w : World) : outcome (float64 * float64) :=
  if (sim0 <? now)%float then
    match fuel with
    | O => Running w
    | S fuel' =>
        let w := frame h sim0 (realtime ubase base sim0) w in
        let sim1 := (sim0 + h)%float in
        let w := set_sim (set_simTime sim1 (sim w)) w in
        let h := if (sim1 <? now)%float then hz (sim w) else h in
        let (now, w) := Now w in
        stepLoop fuel' ubase base h sim1 now w
    end
  else Returned (h, now) w.

(** The first part of [runSim], after the stop check: the samples, the
    pre-frame hook and the catch-up loop. *)
Definition stepping (fuel : nat) (ubase : Z) (w : World)
  : outcome (float64 * float64) :=
  let sim0 := simTime (sim w) in
  let base := baseTime (sim w) in
  let h := hz (sim w) in
  let w := runOp HPreFrame (PreFrame (sim w)) h sim0 (realtime ubase base sim0) w in
  let (now, w) := Now w in
  stepLoop fuel ubase base h sim0 now w.

(** The last part of [runSim]: the render gate. *)
Definition renderGate (ubase : Z) (base h now : float64) (w : World) : World :=
  let rlimit := 0 <? rfps (sim w) in
  let r := rhz (sim w) in
  if rlimit then
    if (renderTime (sim w) <=? now)%float then
      let w := runOp HRender (Render (sim w)) h now (realtime ubase base now) w in
      set_sim (set_renderTime (now + r)%float (sim w)) w
    else w
  else
    let w := runOp HRender (Render (sim w)) h now (realtime ubase base now) w in
    set_sim (set_renderTime now (sim w)) w.

Definition runSim (fuel : nat) (ubase : Z) (stop : chan) (w : World)
  : outcome error :=
  if fired w stop then Returned (Some ErrStopped) w
  else
    match stepping fuel ubase w with
    | Running w => Running w
    | Returned (h, now) w' =>
        Returned None (renderGate ubase (baseTime (sim w)) h now w')
    end.

(** ** The other goroutines *)

(** What other goroutines do between two iterations of the loop: call a
    method or close a channel, enter the [select] of [Sched] or of [Sync],
    or leave that [select] by its [<-s.stopped] case. *)
Inductive Act : Set :=
| ActCall (c : Call)
| ActSched (op : Op)
| ActSync (op : Op)
| ActAbandon (g : nat).

(** Entering the [select] of [Sched] ([sync = false]) or [Sync]
    ([sync = true]): [s.sched] and [s.stopped] are evaluated there, and the
    goroutine joins the blocked senders. *)
Definition submit (sync : bool) (op : Op) (w : World) : World :=
  mkWorld (sim w) (clock w) (reads w) (unix_now w) (closed w)
          (sendq w ++ [mkSender (next_go w) (sched (sim w)) (stopped (sim w))
                                op sync])
          (next_chan w) (S (next_go w)) (trace w).

Definition Sched (op : Op) (w : World) : World := submit false op w.
Definition Sync (op : Op) (w : World) : World := submit true op w.

(** The [<-s.stopped] case of a blocked sender: it can be taken only once
    the stop channel is closed, and the op is dropped. *)
Definition abandon (g : nat) (w : World) : World :=
  set_sendq
    (filter (fun x => negb (Nat.eqb (snd_id x) g && fired w (snd_stop x)))
            (sendq w)) w.

Definition act (a : Act) (w : World) : World :=
  match a with
  | ActCall c => do_call c w
  | ActSched op => Sched op w
  | ActSync op => Sync op w
  | ActAbandon g => abandon g w
  end.

Definition others (acts : list Act) (w : World) : World :=
  fold_left (fun w a => act a w) acts w.

(** ** [Run] *)

(** The statements of [Run] before its loop; the result is [ubase], the
    captured stop channel and the world. [glfw.SetTime(0)] restarts the
    timer, whose readings from then on are those of [clock]. *)
Definition start (w : World) : Z * chan * World :=
  let stop := stopped (sim w) in
  let ubase := unix_now w in
  let (c, w) := make_chan w in
  let (t, w) := GetTime w in
  (ubase, stop, set_sim (set_started c ubase t (sim w)) w).

(** The loop of [Run]. Each element of [rounds] is what the other
    goroutines do before one more iteration; the loop is [Running] when
    the rounds are used up. *)
Fixpoint runLoop (fuel : nat) (ubase : Z) (stop : chan)
  (rounds : list (list Act)) (w : World) : outcome error :=
  match rounds with
  | [] => Running w
  | acts :: rest =>
      match runSim fuel ubase stop (others acts w) with
      | Returned (Some err) w => Returned (Some err) w
      | Returned None w => runLoop fuel ubase stop rest w
      | Running w => Running w
      end
  end.

Definition Run (fuel : nat) (rounds : list (list Act)) (w : World)
  : outcome error :=
  let '(ubase, stop, w) := start w in
  runLoop fuel ubase stop rounds w.

(** ** Reading the log *)

Definition Hook_eqb (a b : Hook) : bool :=
  match a, b with
  | HPreFrame, HPreFrame | HFrame, HFrame | HRender, HRender => true
  | HOp i, HOp j => Nat.eqb i j
  | _, _ => false
  end.

Definition invocation (hk : Hook) (e : Event)
  : list (float64 * float64 * Time) :=
  match e with
  | EvDo k h ft rt => if Hook_eqb k hk then [(h, ft, rt)] else []
  | _ => []
  end.

(** The arguments [(step, frameTime, when)] of the invocations of one
    callback, in order. *)
Definition invocations (hk : Hook) (t : list Event)
  : list (float64 * float64 * Time) :=
  flat_map (invocation hk) t.

(** ** Time queries *)

(** [s.Seconds()]. *)
Definition Seconds (s : Sim) : float64 := simTime s.

(** [s.Time()]: the calendar time of the simulation time. *)
Definition Sim_Time (s : Sim) : Time :=
  realtime (runTime s) (baseTime s) (simTime s).

(** [s.RealTime()]: the calendar time of a new reading of [s.Now()]. *)
Definition RealTime (w : World) : Time * World :=
  let (now, w') := Now w in
  (realtime (runTime (sim w)) (baseTime (sim w)) now, w').

(** * The related revision of [frameloop.go]

    The same file in the revision that comes with it: ops take
    [(frameTime, when)], the rates are fixed at construction (there is no
    [SetFPS] or [SetRenderFPS]), [NewSim] makes the op channel, and the
    loop of [Run] is written out in [Run] itself. A callback can still
    close channels; that is all it can do to the scheduler. *)

Module Legacy.

(** An [Op]: its [Do(frameTime, when)], as the channels it closes. *)
Definition Op : Set := float64 -> Time -> list nat.

Record Sim : Set := mkSim {
  PreFrame : option Op;
  Frame : option Op;
  Render : option Op;
  fps : Z;
  rfps : Z;
  hz : float64;
  rhz : float64;
  baseTime : float64;
  simTime : float64;
  renderTime : float64;
  runTime : Z;
  sched : chan;
  stopped : chan
}.

(** [NewSim]; [c] is the channel that [make(chan Op)] returns. *)
Definition NewSim (n r : Z) (stop : chan) (c : nat) : result Sim :=
  if n <=? 0 then Panics "gt3: simloop FPS must be > 0"
  else
    let rh := if 0 <? r then (1 / float64_of_int r)%float else 0%float in
    Returns {| PreFrame := None; Frame := None; Render := None;
               fps := n;
               rfps := r;
               hz := (1 / float64_of_int n)%float;
               rhz := rh;
               baseTime := 0%float; simTime := 0%float; renderTime := 0%float;
               runTime := 0;
               sched := chan_ref c;
               stopped := stop |}.

Definition set_simTime (t : float64) (s : Sim) : Sim :=
  {| PreFrame := PreFrame s; Frame := Frame s; Render := Render s;
     fps := fps s; rfps := rfps s; hz := hz s; rhz := rhz s;
     baseTime := baseTime s; simTime := t; renderTime := renderTime s;
     runTime := runTime s; sched := sched s; stopped := stopped s |}.

Definition set_renderTime (t : float64) (s : Sim) : Sim :=
  {| PreFrame := PreFrame s; Frame := Frame s; Render := Render s;
     fps := fps s; rfps := rfps s; hz := hz s; rhz := rhz s;
     baseTime := baseTime s; simTime := simTime s; renderTime := t;
     runTime := runTime s; sched := sched s; stopped := stopped s |}.

(** The assignments at the top of [Run]. *)
Definition set_started (ubase : Z) (base : float64) (s : Sim) : Sim :=
  {| PreFrame := PreFrame s; Frame := Frame s; Render := Render s;
     fps := fps s; rfps := rfps s; hz := hz s; rhz := rhz s;
     baseTime := base; simTime := 0%float; renderTime := renderTime s;
     runTime := ubase; sched := sched s; stopped := stopped s |}.

(** The log: a receive on the op channel, the start of a callback's [Do]
    with its arguments, each channel that callback closes, and the
    [close(done)] that ends the op of a [Sync]. *)
Inductive Event : Set :=
| EvRecv (g : nat)
| EvDo (h : Hook) (frameTime : float64) (when : Time)
| EvClose (c : nat)
| EvDone (g : nat).

(** A goroutine blocked in the [select] of [Sched] or [Sync]. *)
Record Sender : Set := mkSender {
  snd_id : nat;
  snd_chan : chan;
  snd_stop : chan;
  snd_op : Op;
  snd_sync : bool
}.

Record World : Type := mkWorld {
  sim : Sim;
  clock : nat -> float64;   (* successive readings of [glfw.GetTime] *)
  reads : nat;              (* how many readings were taken *)
  unix_now : Z;             (* [time.Now().Unix()] *)
  closed : list nat;        (* the closed channels *)
  sendq : list Sender;      (* blocked senders, oldest first *)
  next_go : nat;            (* the next goroutine number *)
  trace : list Event        (* the log, oldest first *)
}.

Definition set_sim (s : Sim) (w : World) : World :=
  mkWorld s (clock w) (reads w) (unix_now w) (closed w) (sendq w) (next_go w)
          (trace w).

Definition set_sendq (q : list Sender) (w : World) : World :=
  mkWorld (sim w) (clock w) (reads w) (unix_now w) (closed w) q (next_go w)
          (trace w).

Definition log (e : Event) (w : World) : World :=
  mkWorld (sim w) (clock w) (reads w) (unix_now w) (closed w) (sendq w)
          (next_go w) (trace w ++ [e]).

Definition close_chan (c : nat) (w : World) : World :=
  mkWorld (sim w) (clock w) (reads w) (unix_now w) (c :: closed w) (sendq w)
          (next_go w) (trace w).

(** [glfw.GetTime()]. *)
Definition GetTime (w : World) : float64 * World :=
  (clock w (reads w),
   mkWorld (sim w) (clock w) (S (reads w)) (unix_now w) (closed w) (sendq w)
           (next_go w) (trace w)).

Definition fired (w : World) (c : chan) : bool :=
  match c with
  | chan_nil => false
  | chan_ref i => existsb (Nat.eqb i) (closed w)
  end.

Definition do_closes (cs : list nat) (w : World) : World :=
  fold_left (fun w c => close_chan c (log (EvClose c) w)) cs w.

(** [op.Do(ft, rt)] on the loop goroutine. *)
Definition Do (hk : Hook) (op : Op) (ft : float64) (rt : Time) (w : World)
  : World :=
  do_closes (op ft rt) (log (EvDo hk ft rt) w).

Definition Do_sent (x : Sender) (ft : float64) (rt : Time) (w : World) : World :=
  let w := Do (HOp (snd_id x)) (snd_op x) ft rt w in
  if snd_sync x then log (EvDone (snd_id x)) w else w.

(** [s.now()]. *)
Definition now (w : World) : float64 * World :=
  let (t, w) := GetTime w in ((t - baseTime (sim w))%float, w).

(** [s.RealTime()]: in this revision, the calendar time of the
    simulation time. *)
Definition RealTime (s : Sim) : Time :=
  realtime (runTime s) (baseTime s) (simTime s).

Definition on_chan (c : chan) (x : Sender) : bool :=
  chan_eqb (snd_chan x) c && negb (chan_eqb c chan_nil).

Fixpoint recv (c : chan) (q : list Sender) : option (Sender * list Sender) :=
  match q with
  | [] => None
  | x :: q' =>
      if on_chan c x then Some (x, q')
      else match recv c q' with
           | Some (y, r) => Some (y, x :: r)
           | None => None
           end
  end.

Fixpoint pollLoop (n : nat) (c : chan) (ft : float64) (rt : Time) (w : World)
  : World :=
  match recv c (sendq w) with
  | Some (x, q) =>
      match n with
      | O => w
      | S n' =>
          pollLoop n' c ft rt
            (Do_sent x ft rt (log (EvRecv (snd_id x)) (set_sendq q w)))
      end
  | None => w
  end.

Definition pollSched (ft : float64) (rt : Time) (w : World) : World :=
  pollLoop (List.length (sendq w)) (sched (sim w)) ft rt w.

Definition runOp (hk : Hook) (op : option Op) (ft : float64) (rt : Time)
  (w : World) : World :=
  match op with
  | Some f => Do hk f ft rt w
  | None => w
  end.

Definition frame (ft : float64) (rt : Time) (w : World) : World :=
  let w := pollSched ft rt w in
  runOp HFrame (Frame (sim w)) ft rt w.

Inductive outcome (A : Type) : Type :=
| Returned (a : A) (w : World)
| Running (w : World).
Arguments Returned {A} a w.
Arguments Running {A} w.

Definition world_of {A : Type} (o : outcome A) : World :=
  match o with
  | Returned _ w => w
  | Running w => w
  end.

(** The catch-up loop, [for hz := s.hz; sim+hz <= now; { ... }]: [h] and
    [t] are its [hz] and the [now] read at the top of the iteration, both
    fixed for the loop. [fuel] bounds the number of passes. It returns the
    final [sim]. *)
Fixpoint stepLoop (fuel : nat) (ubase : Z) (base h sim0 t : float64)
  (w : World) : outcome float64 :=
  if (sim0 + h <=? t)%float then
    match fuel with
    | O => Running w
    | S fuel' =>
        let w := frame sim0 (realtime ubase base sim0) w in
        let sim1 := (sim0 + h)%float in
        let w := set_sim (set_simTime sim1 (sim w)) w in
        stepLoop fuel' ubase base h sim1 t w
    end
  else Returned sim0 w.

(** The render gate at the end of the loop body. *)
Definition renderGate (ubase : Z) (base sim0 : float64) (w : World) : World :=
  if 0 <? rfps (sim w) then
    let (t, w) := now w in
    if (renderTime (sim w) <=? t)%float then
      let w := runOp HRender (Render (sim w)) sim0 (realtime ubase base sim0) w in
      set_sim (set_renderTime (t + rhz (sim w))%float (sim w)) w
    else w
  else runOp HRender (Render (sim w)) sim0 (realtime ubase base sim0) w.

(** The body of the loop of [Run], after the stop check. *)
Definition body (fuel : nat) (ubase : Z) (w : World) : outcome unit :=
  let (t, w) := now w in
  let sim0 := simTime (sim w) in
  let base := baseTime (sim w) in
  let w := runOp HPreFrame (PreFrame (sim w)) sim0 (realtime ubase base sim0) w in
  match stepLoop fuel ubase base (hz (sim w)) sim0 t w with
  | Running w => Running w
  | Returned sim1 w => Returned tt (renderGate ubase base sim1 w)
  end.

(** What other goroutines do between two iterations. *)
Inductive Act : Set :=
| ActClose (c : nat)
| ActSched (op : Op)
| ActSync (op : Op)
| ActAbandon (g : nat).

Definition submit (sync : bool) (op : Op) (w : World) : World :=
  mkWorld (sim w) (clock w) (reads w) (unix_now w) (closed w)
          (sendq w ++ [mkSender (next_go w) (sched (sim w)) (stopped (sim w))
                                op sync])
          (S (next_go w)) (trace w).

Definition Sched (op : Op) (w : World) : World := submit false op w.
Definition Sync (op : Op) (w : World) : World := submit true op w.

Definition abandon (g : nat) (w : World) : World :=
  set_sendq
    (filter (fun x => negb (Nat.eqb (snd_id x) g && fired w (snd_stop x)))
            (sendq w)) w.

Definition act (a : Act) (w : World) : World :=
  match a with
  | ActClose c => close_chan c w
  | ActSched op => Sched op w
  | ActSync op => Sync op w
  | ActAbandon g => abandon g w
  end.

Definition others (acts : list Act) (w : World) : World :=
  fold_left (fun w a => act a w) acts w.

(** The statements of [Run] before its loop. *)
Definition start (w : World) : Z * chan * World :=
  let stop := stopped (sim w) in
  let ubase := unix_now w in
  let (t, w) := GetTime w in
  (ubase, stop, set_sim (set_started ubase t (sim w)) w).

(** The loop of [Run]: [return nil] when the stop channel is closed at
    the check, the body otherwise. *)
Fixpoint runLoop (fuel : nat) (ubase : Z) (stop : chan)
  (rounds : list (list Act)) (w : World) : outcome error :=
  match rounds with
  | [] => Running w
  | acts :: rest =>
      let w := others acts w in
      if fired w stop then Returned None w
      else
        match body fuel ubase w with
        | Returned _ w => runLoop fuel ubase stop rest w
        | Running w => Running w
        end
  end.

Definition Run (fuel : nat) (rounds : list (list Act)) (w : World)
  : outcome error :=
  let '(ubase, stop, w) := start w in
  runLoop fuel ubase stop rounds w.

Definition started (w : World) : World := snd (start w).

(** ** Reading the log *)

Definition invocation (hk : Hook) (e : Event) : list (float64 * Time) :=
  match e with
  | EvDo k ft rt => if Hook_eqb k hk then [(ft, rt)] else []
  | _ => []
  end.

(** The arguments [(frameTime, when)] of the invocations of one callback,
    in order. *)
Definition invocations (hk : Hook) (t : list Event) : list (float64 * Time) :=
  flat_map (invocation hk) t.

Definition receipt (e : Event) : list nat :=
  match e with
  | EvRecv g => [g]
  | _ => []
  end.

Definition receipts (t : list Event) : list nat := flat_map receipt t.

(** Everything one op logs, the handoff of one sender logs, and the
    invocation of a hook logs. *)
Definition Do_events (hk : Hook) (op : Op) (ft : float64) (rt : Time)
  : list Event :=
  EvDo hk ft rt :: map EvClose (op ft rt).

Definition sent_events (ft : float64) (rt : Time) (x : Sender) : list Event :=
  EvRecv (snd_id x) :: Do_events (HOp (snd_id x)) (snd_op x) ft rt
    ++ (if snd_sync x then [EvDone (snd_id x)] else []).

Definition hook_events (hk : Hook) (op : option Op) (ft : float64) (rt : Time)
  : list Event :=
  match op with
  | Some f => Do_events hk f ft rt
  | None => []
  end.

Definition queued (c : chan) (q : list Sender) : list Sender :=
  filter (on_chan c) q.

Definition unqueued (c : chan) (q : list Sender) : list Sender :=
  filter (fun x => negb (on_chan c x)) q.

(** What the loop body never changes: everything of the [Sim] but the
    simulation time and the render deadline, and the timer. *)
Record fixed (w w' : World) : Prop := mkFixed {
  fixed_clock : clock w' = clock w;
  fixed_unix_now : unix_now w' = unix_now w;
  fixed_PreFrame : PreFrame (sim w') = PreFrame (sim w);
  fixed_Frame : Frame (sim w') = Frame (sim w);
  fixed_Render : Render (sim w') = Render (sim w);
  fixed_fps : fps (sim w') = fps (sim w);
  fixed_rfps : rfps (sim w') = rfps (sim w);
  fixed_hz : hz (sim w') = hz (sim w);
  fixed_rhz : rhz (sim w') = rhz (sim w);
  fixed_baseTime : baseTime (sim w') = baseTime (sim w);
  fixed_runTime : runTime (sim w') = runTime (sim w);
  fixed_sched : sched (sim w') = sched (sim w);
  fixed_stopped : stopped (sim w') = stopped (sim w)
}.

(** The invocations of the [Frame] hook climb a ladder of equal steps
    [h] from [s] to [s']: each has the simulation time reached so far as
    its frame time and, as its [when], the calendar time of that. *)
Fixpoint ladder (when : float64 -> Time) (h s : float64)
  (l : list (float64 * Time)) (s' : float64) : Prop :=
  match l with
  | [] => s' = s
  | (ft, rt) :: rest =>
      ft = s /\ rt = when s /\ ladder when h (s + h)%float rest s'
  end.

(** The same within one iteration, whose reading of the timer is [t]: a
    pass is made exactly while a whole step fits under [t]. *)
Fixpoint full_steps (when : float64 -> Time) (h t s : float64)
  (l : list (float64 * Time)) (s' : float64) : Prop :=
  match l with
  | [] => (s + h <=? t)%float = false /\ s' = s
  | (ft, rt) :: rest =>
      (s + h <=? t)%float = true /\ ft = s /\ rt = when s /\
      full_steps when h t (s + h)%float rest s'
  end.

End Legacy.

(** * The vocabulary of the properties *)

(** ** Tolerance *)

(** The exact value of a finite float, as a fraction [num / 2 ^ sh]. *)
Definition dyadic (f : float64) : option (Z * Z) :=
  match Prim2SF f with
  | S754_zero _ => Some (0, 0)
  | S754_finite s m e =>
      let v := if s then Zneg m else Zpos m in
      if 0 <=? e then Some (v * 2 ^ e, 0) else Some (v, - e)
  | _ => None
  end.

(** [hz] is within relative error [2 ^ -53] of [1/fps]:
    [|hz * fps - 1| <= 2 ^ -53], checked in exact integer arithmetic. *)
Definition hz_within_tolerance (n : Z) : bool :=
  match NewSim n 0 chan_nil with
  | Returns s =>
      match dyadic (hz s) with
      | Some (v, sh) => Z.abs (v * n - 2 ^ sh) * 2 ^ 53 <=? 2 ^ sh
      | None => false
      end
  | Panics _ => false
  end.

(** ** Frames *)

(** A callback acts through [SetFPS], [SetRenderFPS] and [close] only: it
    can change the four rate fields, the closed channels and the log, and
    nothing else. *)
Record kept (w w' : World) : Prop := mkKept {
  kept_clock : clock w' = clock w;
  kept_reads : reads w' = reads w;
  kept_unix_now : unix_now w' = unix_now w;
  kept_sendq : sendq w' = sendq w;
  kept_next_chan : next_chan w' = next_chan w;
  kept_next_go : next_go w' = next_go w;
  kept_PreFrame : PreFrame (sim w') = PreFrame (sim w);
  kept_Frame : Frame (sim w') = Frame (sim w);
  kept_Render : Render (sim w') = Render (sim w);
  kept_runTime : runTime (sim w') = runTime (sim w);
  kept_baseTime : baseTime (sim w') = baseTime (sim w);
  kept_simTime : simTime (sim w') = simTime (sim w);
  kept_renderTime : renderTime (sim w') = renderTime (sim w);
  kept_sched : sched (sim w') = sched (sim w);
  kept_stopped : stopped (sim w') = stopped (sim w)
}.

(** ** What is logged *)

(** Everything one op logs: the start of its [Do], then its calls. *)
Definition Do_events (hk : Hook) (op : Op) (h ft : float64) (rt : Time)
  : list Event :=
  EvDo hk h ft rt :: map EvCall (op h ft rt).

(** Everything the handoff of one sender logs: the receive, the op, and
    for [Sync] the closing of [done]. *)
Definition sent_events (h ft : float64) (rt : Time) (x : Sender) : list Event :=
  EvRecv (snd_id x) :: Do_events (HOp (snd_id x)) (snd_op x) h ft rt
    ++ (if snd_sync x then [EvDone (snd_id x)] else []).

(** Everything the invocation of a hook logs; nothing for a nil hook. *)
Definition hook_events (hk : Hook) (op : option Op) (h ft : float64) (rt : Time)
  : list Event :=
  match op with
  | Some f => Do_events hk f h ft rt
  | None => []
  end.

(** The senders a poll of channel [c] will serve, and those it leaves. *)
Definition queued (c : chan) (q : list Sender) : list Sender :=
  filter (on_chan c) q.

Definition unqueued (c : chan) (q : list Sender) : list Sender :=
  filter (fun x => negb (on_chan c x)) q.

(** ** The catch-up loop and the iteration *)

(** Once [Run] has started, nothing changes the timer, the hooks, the
    start times or the two channels of the [Sim]. *)
Record stable (w w' : World) : Prop := mkStable {
  stable_clock : clock w' = clock w;
  stable_unix_now : unix_now w' = unix_now w;
  stable_PreFrame : PreFrame (sim w') = PreFrame (sim w);
  stable_Frame : Frame (sim w') = Frame (sim w);
  stable_Render : Render (sim w') = Render (sim w);
  stable_runTime : runTime (sim w') = runTime (sim w);
  stable_baseTime : baseTime (sim w') = baseTime (sim w);
  stable_sched : sched (sim w') = sched (sim w);
  stable_stopped : stopped (sim w') = stopped (sim w)
}.

(** One of the three hooks, as opposed to a submitted op. *)
Definition is_hook (hk : Hook) : bool :=
  match hk with
  | HOp _ => false
  | _ => true
  end.


(** What one pass of the catch-up loop and the whole loop leave alone: the
    render deadline, the goroutine and channel counters, and the
    invocations of the hooks other than [Frame]. *)
Record stepped (w w' : World) : Prop := mkStepped {
  stepped_stable : stable w w';
  stepped_renderTime : renderTime (sim w') = renderTime (sim w);
  stepped_next_chan : next_chan w' = next_chan w;
  stepped_next_go : next_go w' = next_go w;
  stepped_invocations :
    forall hk, is_hook hk = true -> Hook_eqb HFrame hk = false ->
               invocations hk (trace w') = invocations hk (trace w)
}.

(** The world in which the catch-up loop of an iteration starts: the
    pre-frame hook has run and the first reading is taken. *)
Definition preframed (ubase : Z) (w : World) : World :=
  snd (Now (runOp HPreFrame (PreFrame (sim w)) (hz (sim w)) (simTime (sim w))
              (realtime ubase (baseTime (sim w)) (simTime (sim w))) w)).

(** The [n]-th reading of [s.Now()] in the world [w]. *)
Definition reading (w : World) (n : nat) : float64 :=
  (clock w n - baseTime (sim w))%float.

(** ** Small steps *)

(** The three hook fields. *)
Definition hooks_of (s : Sim) : list (option Op) :=
  [PreFrame s; Frame s; Render s].

Section StepRelation.

(** The acts the other goroutines are allowed. *)
Variable allowed : Act -> Prop.

(** Everything [Run] does after [start] is made of these steps: the
    handoff of a blocked sender's op on the loop's own channel, the
    invocation of an installed hook, a reading of the timer, the two
    writes to the timing fields, and an act of another goroutine. *)
Inductive step : World -> World -> Prop :=
| step_handoff w x q h ft rt :
    recv (sched (sim w)) (sendq w) = Some (x, q) ->
    step w (Do_sent x h ft rt (log (EvRecv (snd_id x)) (set_sendq q w)))
| step_hook w hk f h ft rt :
    is_hook hk = true -> In (Some f) (hooks_of (sim w)) ->
    step w (Do hk f h ft rt w)
| step_read w : step w (snd (Now w))
| step_simTime w t : step w (set_sim (set_simTime t (sim w)) w)
| step_renderTime w t : step w (set_sim (set_renderTime t (sim w)) w)
| step_act w a : allowed a -> step w (act a w).

Inductive steps : World -> World -> Prop :=
| steps_refl w : steps w w
| steps_next w1 w2 w3 : step w1 w2 -> steps w2 w3 -> steps w1 w3.

End StepRelation.

(** ** The render gate *)

(** A call, op or act that does not change the render rate. *)
Definition calm_call (c : Call) : bool :=
  match c with
  | CallSetRenderFPS _ => false
  | _ => true
  end.

Definition calm_op (op : Op) : Prop :=
  forall h ft rt, forallb calm_call (op h ft rt) = true.

Definition calm_act (a : Act) : Prop :=
  match a with
  | ActCall c => calm_call c = true
  | ActSched op | ActSync op => calm_op op
  | ActAbandon _ => True
  end.

(** The render rate is fixed at [R], with [rhz = r], and nothing around
    the loop is going to change it. *)
Definition calm (R : Z) (r : float64) (w : World) : Prop :=
  rfps (sim w) = R /\ rhz (sim w) = r /\
  (forall f, In (Some f) (hooks_of (sim w)) -> calm_op f) /\
  Forall (fun x => calm_op (snd_op x)) (sendq w).

(** The renders of a rate-limited run, told by the invocations of the
    [Render] hook: with the deadline at [t], a render takes place at a
    reading [a] with [t <= a], and moves the deadline to [a + r]; [t'] is
    the deadline in the end. *)
Fixpoint gated (r t : float64) (l : list (float64 * float64 * Time))
  (t' : float64) : Prop :=
  match l with
  | [] => t' = t
  | (_, a, _) :: rest => (t <=? a)%float = true /\ gated r (a + r)%float rest t'
  end.

(** Each render is at least [r] after the one before, in the arithmetic
    of the code: [a + r <= b] for consecutive frame times [a] and [b]. *)
Fixpoint spaced (r : float64) (l : list (float64 * float64 * Time)) : Prop :=
  match l with
  | (_, a, _) :: rest =>
      match rest with
      | (_, b, _) :: _ => (a + r <=? b)%float = true
      | [] => True
      end /\ spaced r rest
  | [] => True
  end.

(** ** Waiting senders *)



(** ** Rates *)

(** The rate fields agree: the step rate is not negative, [hz] is
    [1.0 / float64(fps)], and [rhz] is [1.0 / float64(rfps)] whenever the
    render rate is limited. *)
Definition rate_ok (s : Sim) : Prop :=
  0 <= fps s /\
  hz s = (1 / float64_of_int (fps s))%float /\
  (0 < rfps s -> rhz s = (1 / float64_of_int (rfps s))%float).

(** ** Receipts *)

(** The senders whose op the loop has received, in the order of the log. *)
Definition receipt (e : Event) : list nat :=
  match e with
  | EvRecv g => [g]
  | _ => []
  end.

Definition receipts (t : list Event) : list nat := flat_map receipt t.

(** The goroutine numbers of the receipts so far, followed by those of
    the senders now blocked on the op channel. Numbers are given out in
    the order in which senders enter their [select]. *)
Definition service_order (w : World) : list nat :=
  receipts (trace w) ++ map snd_id (queued (sched (sim w)) (sendq w)).

(** Receipts and waiting senders are in the order of entering, and all
    numbers in use are below the next one to be given out. *)
Definition in_order (w : World) : Prop :=
  StronglySorted lt (service_order w) /\
  Forall (fun g => (g < next_go w)%nat) (service_order w).

(** ** Calendar times in the log *)

(** The [when] of an invocation is the calendar time that [s.Time()]
    gives once the simulation time is the invocation's frame time. *)
Definition stamped (s : Sim) (e : Event) : Prop :=
  match e with
  | EvDo _ _ ft rt => rt = Sim_Time (set_simTime ft s)
  | _ => True
  end.

(** The same, for the start times [ubase] and [base] that [runSim] has in
    hand. *)
Definition stamped_at (ubase : Z) (base : float64) (e : Event) : Prop :=
  match e with
  | EvDo _ _ ft rt => rt = realtime ubase base ft
  | _ => True
  end.

(** ** Chains of increments *)

(** The invocations of the [Frame] hook form a chain from the simulation
    time [s] to [s']: each has the simulation time reached so far as its
    frame time, and its step is then added. *)
Fixpoint chain (s : float64) (l : list (float64 * float64 * Time))
  (s' : float64) : Prop :=
  match l with
  | [] => s' = s
  | (h, ft, _) :: rest => ft = s /\ chain (s + h)%float rest s'
  end.

(** * Scenarios *)

(** A callback that calls nothing. *)
Definition idle : Op := fun _ _ _ => [].

(** A timer that gives the readings [l] in turn and then stays at the
    last one. *)
Definition readings (l : list float64) (n : nat) : float64 :=
  nth n l (last l 0%float).

(** The assignments to the exported hook fields. *)
Definition set_hooks (pre fr re : option Op) (s : Sim) : Sim :=
  {| PreFrame := pre; Frame := fr; Render := re;
     fps := fps s; hz := hz s; rfps := rfps s; rhz := rhz s;
     runTime := runTime s; baseTime := baseTime s; simTime := simTime s;
     renderTime := renderTime s; sched := sched s; stopped := stopped s |}.

(** What [NewSim(2, renderfps, stop)] returns, with channel 0 for [stop]
    and three idle hooks installed. *)
Definition demo_sim (renderfps : Z) : Sim :=
  set_hooks (Some idle) (Some idle) (Some idle)
    (mkSim None None None 2 0.5%float renderfps
           (if 0 <? renderfps then (1 / float64_of_int renderfps)%float
            else 0%float)
           0 0%float 0%float 0%float chan_nil (chan_ref 0)).

(** A [Sim] at 2 steps and 30 renders a second, with no hooks. *)
Definition sim_2_30 : Sim :=
  mkSim None None None 2 0.5%float 30 (1 / 30)%float 0 0%float 0%float 0%float
        chan_nil chan_nil.

(** A world before [Run]: the stop channel is channel 0, the Unix time is
    1000 and the timer gives the readings [l]. *)
Definition world_at (s : Sim) (l : list float64) : World :=
  mkWorld s (readings l) 0 1000 [] [] 1 0 [].

(** The world when the loop of [Run] starts. *)
Definition started (w : World) : World := snd (start w).

(** The timer reads 0 at the start, then 0.25 and 0.375: a quarter of a
    second has passed when the first iteration reads it, half a step. *)
Definition half_step : World :=
  started (world_at (demo_sim 0) [0; 0.25; 0.375]%float).


(** A run limited to 4 renders a second: the timer reads 0 at the start,
    0.125 and 0.25 in the first iteration, 0.375 in the second, 0.625 and
    0.75 in the third. *)
Definition limited_run : World :=
  started (world_at (demo_sim 4) [0; 0.125; 0.25; 0.375; 0.625; 0.75]%float).

(** The stop channel is closed by another goroutine after the first
    iteration. *)
Definition stopped_run : outcome error :=
  Run 4 [[]; [ActCall (CallClose 0)]]
      (world_at (demo_sim 0) [0; 0.25; 0.375]%float).

(** An op that would set the rate to 4, for a [Sync] entered before
    [Run]. *)
Definition early_sync_op : Op := fun _ _ _ => [CallSetFPS 4].

(** A world in which [Run] has not been called yet. *)
Definition early_world : World :=
  world_at (demo_sim 0) [0; 0.25; 0.375; 1; 1.25]%float.

(** An op that calls [SetFPS(4)]. *)
Definition set_rate_op : Op := fun _ _ _ => [CallSetFPS 4].

(** The op is submitted with [Sched] once the loop has started, so it runs
    in the first increment. The timer reads 0 at the start, 0.25 when the
    iteration begins and 1 after the first increment. *)
Definition stale_world : World :=
  Sched set_rate_op (started (world_at (demo_sim 0) [0; 0.25; 1; 1]%float)).

(** Two ops are submitted once the loop has started, a [Sched] and then
    a [Sync]; the timer reads as for [half_step] and then 1. *)
Definition two_ops_run : outcome error :=
  Run 4 [[ActSched set_rate_op; ActSync idle]; []]
      (world_at (demo_sim 0) [0; 0.25; 0.375; 1; 1]%float).

(** Another goroutine calls [SetFPS(0)] before the first iteration; the
    timer reads 0.25 when that iteration begins. *)
Definition zero_rate_world : World :=
  others [ActCall (CallSetFPS 0)]
         (started (world_at (demo_sim 0) [0; 0.25; 0.5; 1; 2]%float)).

(** The world after that iteration: the simulation time is infinite. *)
Definition frozen_world : World :=
  world_of (runSim 4 1000 (chan_ref 0) zero_rate_world).

(** ** The related revision *)

(** A callback that closes nothing. *)
Definition legacy_idle : Legacy.Op := fun _ _ => [].

(** What [NewSim(2, renderfps, stop)] of the related revision returns,
    with channel 0 for [stop] and channel 1 made for the ops, and three
    idle hooks installed. *)
Definition legacy_demo_sim (renderfps : Z) : Legacy.Sim :=
  Legacy.mkSim (Some legacy_idle) (Some legacy_idle) (Some legacy_idle)
    2 renderfps 0.5%float
    (if 0 <? renderfps then (1 / float64_of_int renderfps)%float else 0%float)
    0%float 0%float 0%float 0 (chan_ref 1) (chan_ref 0).

(** A world before [Run]: the Unix time is 1000 and the timer gives the
    readings [l]. *)
Definition legacy_world_at (s : Legacy.Sim) (l : list float64) : Legacy.World :=
  Legacy.mkWorld s (readings l) 0 1000 [] [] 0 [].

(** Half a step has passed when the first iteration reads the timer. *)
Definition legacy_half_step : Legacy.World :=
  Legacy.started (legacy_world_at (legacy_demo_sim 0) [0; 0.25; 0.375]%float).

(** Two steps and a half have passed when the first iteration reads the
    timer. *)
Definition legacy_late : Legacy.World :=
  Legacy.started (legacy_world_at (legacy_demo_sim 0) [0; 1.25; 1.5]%float).

(** The same with renders limited to 4 a second. *)
Definition legacy_late_limited : Legacy.World :=
  Legacy.started (legacy_world_at (legacy_demo_sim 4) [0; 1.25; 1.5]%float).

(** A run of two iterations, after which another goroutine closes the
    stop channel. *)
Definition legacy_stopped_run : Legacy.outcome error :=
  Legacy.Run 4 [[]; []; [Legacy.ActClose 0]]
    (legacy_world_at (legacy_demo_sim 0) [0; 0.25; 1.25; 1.5]%float).



(** * Properties *)

(** ** Construction and rate changes *)

Lemma NewSim_panics_iff (n renderfps : Z) (stop : chan) :
  (exists msg, NewSim n renderfps stop = Panics msg) <-> n <= 0.
Proof.
  unfold NewSim. destruct (Z.leb_spec n 0) as [Hle | Hgt].
  - split; [intros _; exact Hle | intros _; eexists; reflexivity].
  - split; [intros [msg Hm]; discriminate Hm | lia].
Qed.

(** C7. [NewSim] panics exactly when [fps <= 0]. For [fps > 0] it returns
    a [Sim] whose [hz] is the binary64 quotient [1.0 / float64(fps)], that
    is [1/fps] correctly rounded, and whose [rhz] is [1.0 / float64(renderfps)]
    when [renderfps > 0]. *)
Theorem NewSim_spec (n renderfps : Z) (stop : chan) :
  ((exists msg, NewSim n renderfps stop = Panics msg) <-> n <= 0) /\
  (0 < n ->
   exists s, NewSim n renderfps stop = Returns s /\
             fps s = n /\ rfps s = renderfps /\
             hz s = (1 / float64_of_int n)%float /\
             (0 < renderfps -> rhz s = (1 / float64_of_int renderfps)%float)).
Proof.
  split; [apply NewSim_panics_iff |].
  intros Hn. unfold NewSim.
  destruct (Z.leb_spec n 0) as [Hle | _]; [lia |].
  eexists. split; [reflexivity |]. cbn.
  repeat split.
  intros Hr. destruct (Z.ltb_spec 0 renderfps) as [_ | Hge]; [reflexivity | lia].
Qed.

Lemma NewSim_spec_witness :
  exists s, NewSim 30 5 chan_nil = Returns s /\
            fps s = 30 /\ rfps s = 5 /\
            hz s = (1 / float64_of_int 30)%float /\
            (0 < 5 -> rhz s = (1 / float64_of_int 5)%float).
Proof.
  apply (proj2 (NewSim_spec 30 5 chan_nil)). lia.
Defined.

(** The tolerance of C7, for every rate from 1 to 4096 frames a second. *)
Lemma NewSim_hz_tolerance :
  forallb hz_within_tolerance (map Z.of_nat (seq 1 4096)) = true.
Proof. vm_compute. reflexivity. Qed.

(** C6. [SetFPS] with a negative rate returns [ErrBadFPS] and leaves the
    whole [Sim], so [fps] and [hz], as it was. *)
Theorem SetFPS_negative (n : Z) (s : Sim) :
  n < 0 ->
  fst (SetFPS n s) = (0, Some ErrBadFPS) /\
  snd (SetFPS n s) = s /\
  fps (snd (SetFPS n s)) = fps s /\ hz (snd (SetFPS n s)) = hz s.
Proof.
  intros Hn. unfold SetFPS.
  destruct (Z.ltb_spec n 0) as [_ | Hge]; [| lia].
  repeat split.
Qed.

Lemma SetFPS_negative_witness :
  fst (SetFPS (-1) sim_2_30) = (0, Some ErrBadFPS) /\
  snd (SetFPS (-1) sim_2_30) = sim_2_30 /\
  fps (snd (SetFPS (-1) sim_2_30)) = 2 /\
  hz (snd (SetFPS (-1) sim_2_30)) = 0.5%float.
Proof.
  apply (SetFPS_negative (-1) sim_2_30). lia.
Defined.

(** C8. [SetFPS(0)] is accepted: it returns the previous rate and a nil
    error, stores [fps = 0] and sets [hz] to [1.0 / 0.0], which is positive
    infinity; [NewSim] with [fps = 0] panics. *)
Theorem SetFPS_zero (s : Sim) (renderfps : Z) (stop : chan) :
  fst (SetFPS 0 s) = (fps s, None) /\
  fps (snd (SetFPS 0 s)) = 0 /\
  hz (snd (SetFPS 0 s)) = infinity /\
  NewSim 0 renderfps stop = Panics "gt3: simloop FPS must be > 0".
Proof.
  repeat split.
Qed.

(** ** What callbacks leave alone *)

Lemma kept_refl (w : World) : kept w w.
Proof. constructor; reflexivity. Qed.

Lemma kept_trans (a b c : World) : kept a b -> kept b c -> kept a c.
Proof.
  intros [] []. constructor; etransitivity; eassumption.
Qed.

(** Closes a [kept] goal from the [kept] facts at hand. *)
Ltac kept_solve :=
  repeat match goal with H : kept _ _ |- _ => destruct H end;
  constructor; cbn in *; congruence.

Lemma kept_log (e : Event) (w : World) : kept w (log e w).
Proof. constructor; reflexivity. Qed.

Lemma kept_do_call (c : Call) (w : World) : kept w (do_call c w).
Proof.
  destruct c as [n | n | i]; cbn.
  - unfold SetFPS. destruct (n <? 0); constructor; reflexivity.
  - constructor; reflexivity.
  - constructor; reflexivity.
Qed.

Lemma kept_do_calls (cs : list Call) (w : World) : kept w (do_calls cs w).
Proof.
  revert w. induction cs as [| c cs IH]; intros w; cbn.
  - apply kept_refl.
  - eapply kept_trans; [| apply IH].
    eapply kept_trans; [apply kept_log | apply kept_do_call].
Qed.

Lemma kept_Do hk op h ft rt (w : World) : kept w (Do hk op h ft rt w).
Proof.
  unfold Do. eapply kept_trans; [apply kept_log | apply kept_do_calls].
Qed.

Lemma kept_Do_sent x h ft rt (w : World) : kept w (Do_sent x h ft rt w).
Proof.
  unfold Do_sent. destruct (snd_sync x).
  - eapply kept_trans; [apply kept_Do | apply kept_log].
  - apply kept_Do.
Qed.

Lemma kept_runOp hk op h ft rt (w : World) : kept w (runOp hk op h ft rt w).
Proof.
  destruct op as [f |]; cbn; [apply kept_Do | apply kept_refl].
Qed.

(** ** The log of a callback *)

Lemma trace_do_call (c : Call) (w : World) : trace (do_call c w) = trace w.
Proof.
  destruct c as [n | n | i]; reflexivity.
Qed.

Lemma trace_do_calls (cs : list Call) (w : World) :
  trace (do_calls cs w) = trace w ++ map EvCall cs.
Proof.
  revert w. induction cs as [| c cs IH]; intros w; cbn.
  - symmetry. apply app_nil_r.
  - unfold do_calls in IH. rewrite IH, trace_do_call. cbn.
    rewrite <- app_assoc. reflexivity.
Qed.

Lemma trace_Do hk op h ft rt (w : World) :
  trace (Do hk op h ft rt w) = trace w ++ Do_events hk op h ft rt.
Proof.
  unfold Do, Do_events. rewrite trace_do_calls. cbn.
  rewrite <- app_assoc. reflexivity.
Qed.

Lemma trace_Do_sent x h ft rt (w : World) :
  trace (Do_sent x h ft rt w) =
  trace w ++ Do_events (HOp (snd_id x)) (snd_op x) h ft rt
    ++ (if snd_sync x then [EvDone (snd_id x)] else []).
Proof.
  unfold Do_sent. destruct (snd_sync x); cbn.
  - rewrite trace_Do, <- app_assoc. reflexivity.
  - rewrite trace_Do, app_nil_r. reflexivity.
Qed.

Lemma trace_runOp hk op h ft rt (w : World) :
  trace (runOp hk op h ft rt w) = trace w ++ hook_events hk op h ft rt.
Proof.
  destruct op as [f |]; cbn; [apply trace_Do | symmetry; apply app_nil_r].
Qed.

(** ** The op queue *)

#[local] Arguments on_chan : simpl never.

Lemma recv_None (c : chan) (q : list Sender) :
  recv c q = None -> queued c q = [] /\ unqueued c q = q.
Proof.
  induction q as [| x q IH]; cbn; [split; reflexivity |].
  destruct (on_chan c x) eqn:Hx; [discriminate |].
  destruct (recv c q) as [[y r] |]; [discriminate |].
  intros _. destruct (IH eq_refl) as [H1 H2].
  unfold queued, unqueued in *. cbn. rewrite H1, H2. split; reflexivity.
Qed.

Lemma recv_Some (c : chan) (q r : list Sender) (x : Sender) :
  recv c q = Some (x, r) ->
  queued c q = x :: queued c r /\ unqueued c q = unqueued c r.
Proof.
  revert r. induction q as [| y q IH]; intros r; cbn; [discriminate |].
  destruct (on_chan c y) eqn:Hy.
  - intros H. injection H as -> ->. cbn. split; reflexivity.
  - destruct (recv c q) as [[z t] |]; [| discriminate].
    intros H. injection H as -> <-.
    destruct (IH t eq_refl) as [H1 H2].
    unfold queued, unqueued in *. cbn. rewrite ?Hy. cbn.
    rewrite H1, H2. split; reflexivity.
Qed.

Lemma pollLoop_spec (n : nat) (c : chan) (h ft : float64) (rt : Time) :
  forall w : World,
    (List.length (queued c (sendq w)) <= n)%nat ->
    let w' := pollLoop n c h ft rt w in
    trace w' = trace w ++ flat_map (sent_events h ft rt) (queued c (sendq w)) /\
    sendq w' = unqueued c (sendq w) /\
    kept (set_sendq (sendq w') w) w'.
Proof.
  induction n as [| n IH]; intros w Hn; cbn.
  - destruct (recv c (sendq w)) as [[x q] |] eqn:Hr.
    + apply recv_Some in Hr. destruct Hr as [Hq _]. rewrite Hq in Hn.
      cbn in Hn. lia.
    + apply recv_None in Hr. destruct Hr as [Hq Hu]. rewrite Hq, Hu.
      cbn. rewrite app_nil_r.
      split; [reflexivity | split; [reflexivity |]].
      constructor; cbn; congruence.
  - destruct (recv c (sendq w)) as [[x q] |] eqn:Hr.
    + apply recv_Some in Hr. destruct Hr as [Hq Hu].
      set (w1 := Do_sent x h ft rt (log (EvRecv (snd_id x)) (set_sendq q w))).
      assert (K1 : kept (set_sendq q w) w1).
      { unfold w1. eapply kept_trans; [apply kept_log | apply kept_Do_sent]. }
      assert (Hs1 : sendq w1 = q) by (rewrite (kept_sendq _ _ K1); reflexivity).
      assert (Ht1 : trace w1 = trace w ++ sent_events h ft rt x).
      { unfold w1. rewrite trace_Do_sent. cbn. unfold sent_events.
        rewrite <- app_assoc. reflexivity. }
      destruct (IH w1) as (Ht & Hs & K).
      { rewrite Hs1. rewrite Hq in Hn. cbn in Hn. lia. }
      rewrite Ht, Hs, Ht1, Hs1, Hq, Hu. cbn. rewrite <- app_assoc.
      split; [reflexivity | split; [reflexivity |]].
      rewrite <- Hs1, <- Hs. kept_solve.
    + apply recv_None in Hr. destruct Hr as [Hq Hu]. rewrite Hq, Hu.
      cbn. rewrite app_nil_r.
      split; [reflexivity | split; [reflexivity |]].
      constructor; cbn; congruence.
Qed.


Lemma queued_length (c : chan) (q : list Sender) :
  (List.length (queued c q) <= List.length q)%nat.
Proof. apply filter_length_le. Qed.

Lemma pollSched_spec (h ft : float64) (rt : Time) (w : World) :
  let w' := pollSched h ft rt w in
  trace w' = trace w ++
    flat_map (sent_events h ft rt) (queued (sched (sim w)) (sendq w)) /\
  sendq w' = unqueued (sched (sim w)) (sendq w) /\
  kept (set_sendq (sendq w') w) w'.
Proof.
  unfold pollSched. apply pollLoop_spec, queued_length.
Qed.

Lemma frame_log (h ft : float64) (rt : Time) (w : World) :
  trace (frame h ft rt w) = trace w
    ++ flat_map (sent_events h ft rt) (queued (sched (sim w)) (sendq w))
    ++ hook_events HFrame (Frame (sim w)) h ft rt /\
  sendq (frame h ft rt w) = unqueued (sched (sim w)) (sendq w).
Proof.
  unfold frame.
  destruct (pollSched_spec h ft rt w) as (Ht & Hs & K).
  cbn in Ht, Hs, K.
  set (w1 := pollSched h ft rt w) in *.
  rewrite trace_runOp, Ht, <- app_assoc.
  rewrite (kept_Frame _ _ K). cbn.
  rewrite (kept_sendq _ _ (kept_runOp _ _ _ _ _ w1)), Hs.
  split; reflexivity.
Qed.


(** ** What the loop leaves alone *)

Ltac stable_solve :=
  repeat match goal with
         | H : kept _ _ |- _ => destruct H
         | H : stable _ _ |- _ => destruct H
         end;
  constructor; cbn in *; congruence.

Lemma stable_refl (w : World) : stable w w.
Proof. constructor; reflexivity. Qed.

Lemma stable_trans (a b c : World) : stable a b -> stable b c -> stable a c.
Proof. intros Hab Hbc. stable_solve. Qed.

Lemma kept_stable (w w' : World) : kept w w' -> stable w w'.
Proof. intros K. stable_solve. Qed.

Lemma stable_frame h ft rt (w : World) : stable w (frame h ft rt w).
Proof.
  unfold frame.
  destruct (pollSched_spec h ft rt w) as (_ & _ & K). cbn in K.
  pose proof (kept_runOp HFrame (Frame (sim (pollSched h ft rt w))) h ft rt
                (pollSched h ft rt w)) as K'.
  stable_solve.
Qed.

Lemma stable_renderGate ubase base h now (w : World) :
  stable w (renderGate ubase base h now w).
Proof.
  unfold renderGate.
  pose proof (kept_runOp HRender (Render (sim w)) h now
                (realtime ubase base now) w) as K.
  destruct (0 <? rfps (sim w)); [destruct (renderTime (sim w) <=? now)%float |];
    try apply stable_refl; stable_solve.
Qed.

(** ** Invocations in the log *)

Lemma invocations_app (hk : Hook) (a b : list Event) :
  invocations hk (a ++ b) = invocations hk a ++ invocations hk b.
Proof. apply flat_map_app. Qed.

Lemma invocations_calls (hk : Hook) (cs : list Call) :
  invocations hk (map EvCall cs) = [].
Proof. induction cs as [| c cs IH]; cbn; auto. Qed.

Lemma invocations_Do_events (hk k : Hook) op h ft rt :
  invocations hk (Do_events k op h ft rt) =
  if Hook_eqb k hk then [(h, ft, rt)] else [].
Proof.
  unfold Do_events. cbn. fold (invocations hk (map EvCall (op h ft rt))).
  rewrite invocations_calls, app_nil_r. reflexivity.
Qed.

Lemma invocations_hook_events (hk k : Hook) op h ft rt :
  Hook_eqb k hk = false -> invocations hk (hook_events k op h ft rt) = [].
Proof.
  intros Hk. destruct op as [f |]; cbn; [| reflexivity].
  fold (invocations hk (map EvCall (f h ft rt))).
  rewrite Hk, invocations_calls. reflexivity.
Qed.

Lemma invocations_sent_one (hk : Hook) h ft rt (x : Sender) :
  is_hook hk = true -> invocations hk (sent_events h ft rt x) = [].
Proof.
  intros Hk. unfold sent_events.
  change (invocations hk
            (Do_events (HOp (snd_id x)) (snd_op x) h ft rt
               ++ (if snd_sync x then [EvDone (snd_id x)] else [])) = []).
  rewrite invocations_app, invocations_Do_events.
  destruct hk; try discriminate; destruct (snd_sync x); reflexivity.
Qed.

Lemma invocations_sent_events (hk : Hook) h ft rt (q : list Sender) :
  is_hook hk = true -> invocations hk (flat_map (sent_events h ft rt) q) = [].
Proof.
  intros Hk. induction q as [| x q IH]; [reflexivity |].
  change (invocations hk
            (sent_events h ft rt x ++ flat_map (sent_events h ft rt) q) = []).
  rewrite invocations_app, invocations_sent_one, IH by exact Hk. reflexivity.
Qed.

Lemma invocations_frame (hk : Hook) h ft rt (w : World) :
  is_hook hk = true ->
  invocations hk (trace (frame h ft rt w)) =
  invocations hk (trace w) ++ invocations hk (hook_events HFrame (Frame (sim w)) h ft rt).
Proof.
  intros Hk.
  destruct (frame_log h ft rt w) as [Ht _].
  rewrite Ht, !invocations_app, invocations_sent_events by exact Hk.
  reflexivity.
Qed.

Lemma kept_frame h ft rt (w : World) :
  kept (set_sendq (sendq (frame h ft rt w)) w) (frame h ft rt w).
Proof.
  unfold frame.
  destruct (pollSched_spec h ft rt w) as (_ & _ & K). cbn in K.
  pose proof (kept_runOp HFrame (Frame (sim (pollSched h ft rt w))) h ft rt
                (pollSched h ft rt w)) as K'.
  pose proof (kept_sendq _ _ K') as Hs.
  rewrite Hs. kept_solve.
Qed.

(** ** The catch-up loop *)


Lemma stepped_refl (w : World) : stepped w w.
Proof. constructor; auto using stable_refl. Qed.

Lemma stepped_trans (a b c : World) : stepped a b -> stepped b c -> stepped a c.
Proof.
  intros [S1 R1 C1 G1 I1] [S2 R2 C2 G2 I2]. constructor.
  - eapply stable_trans; eassumption.
  - congruence.
  - congruence.
  - congruence.
  - intros hk H1 H2. rewrite I2, I1 by assumption. reflexivity.
Qed.

Lemma stepped_frame h ft rt (w : World) : stepped w (frame h ft rt w).
Proof.
  pose proof (kept_frame h ft rt w) as K.
  constructor.
  - apply stable_frame.
  - destruct K; cbn in *; congruence.
  - destruct K; cbn in *; congruence.
  - destruct K; cbn in *; congruence.
  - intros hk H1 H2. rewrite invocations_frame by exact H1.
    rewrite invocations_hook_events by exact H2. apply app_nil_r.
Qed.

Lemma stepLoop_stepped (fuel : nat) (ubase : Z) (base : float64) :
  forall (h sim0 now : float64) (w : World),
    stepped w (world_of (stepLoop fuel ubase base h sim0 now w)).
Proof.
  induction fuel as [| fuel IH]; intros h sim0 now w; cbn.
  - destruct (sim0 <? now)%float; apply stepped_refl.
  - destruct (sim0 <? now)%float; [| apply stepped_refl].
    eapply stepped_trans; [| apply IH].
    eapply stepped_trans; [apply stepped_frame |].
    constructor; try reflexivity. constructor; reflexivity.
Qed.

(** ** One iteration *)

Lemma stepping_unfold (fuel : nat) (ubase : Z) (w : World) :
  stepping fuel ubase w =
  stepLoop fuel ubase (baseTime (sim (preframed ubase w))) (hz (sim w))
           (simTime (sim w)) (reading w (reads w)) (preframed ubase w).
Proof.
  unfold stepping, preframed, reading.
  pose proof (kept_runOp HPreFrame (PreFrame (sim w)) (hz (sim w))
                (simTime (sim w))
                (realtime ubase (baseTime (sim w)) (simTime (sim w))) w) as K.
  destruct K. cbn. congruence.
Qed.

Lemma kept_preframed (ubase : Z) (w : World) :
  kept (mkWorld (sim w) (clock w) (S (reads w)) (unix_now w) (closed w)
                (sendq w) (next_chan w) (next_go w) (trace w))
       (preframed ubase w).
Proof.
  unfold preframed.
  pose proof (kept_runOp HPreFrame (PreFrame (sim w)) (hz (sim w))
                (simTime (sim w))
                (realtime ubase (baseTime (sim w)) (simTime (sim w))) w) as K.
  destruct K. constructor; cbn; congruence.
Qed.

#[local] Arguments preframed : simpl never.

Lemma trace_preframed (ubase : Z) (w : World) :
  trace (preframed ubase w) =
  trace w ++ hook_events HPreFrame (PreFrame (sim w)) (hz (sim w)) (simTime (sim w))
                (realtime ubase (baseTime (sim w)) (simTime (sim w))).
Proof. unfold preframed. apply trace_runOp. Qed.


(** The catch-up part of an iteration does not render: it keeps the render
    deadline and adds no invocation of the [Render] hook. *)
Lemma stepping_no_render (fuel : nat) (ubase : Z) (w : World) :
  let w' := world_of (stepping fuel ubase w) in
  stable w w' /\
  renderTime (sim w') = renderTime (sim w) /\
  next_go w' = next_go w /\
  next_chan w' = next_chan w /\
  invocations HRender (trace w') = invocations HRender (trace w).
Proof.
  intros w'. subst w'. rewrite stepping_unfold.
  pose proof (kept_preframed ubase w) as K.
  pose proof (stepLoop_stepped fuel ubase (baseTime (sim (preframed ubase w)))
                (hz (sim w)) (simTime (sim w)) (reading w (reads w))
                (preframed ubase w)) as [St R C G I].
  rewrite (I HRender eq_refl eq_refl), R, C, G, trace_preframed, invocations_app.
  rewrite invocations_hook_events by reflexivity. rewrite app_nil_r.
  split; [stable_solve |].
  repeat split; destruct K; cbn in *; congruence.
Qed.

(** The render gate keeps the simulation time, the readings and the queue,
    and adds no invocation of a hook other than [Render]. *)
Lemma renderGate_keeps ubase base h now (w : World) :
  let w' := renderGate ubase base h now w in
  simTime (sim w') = simTime (sim w) /\
  reads w' = reads w /\
  sendq w' = sendq w /\
  next_go w' = next_go w /\
  next_chan w' = next_chan w /\
  forall hk, Hook_eqb HRender hk = false ->
             invocations hk (trace w') = invocations hk (trace w).
Proof.
  intros w'. subst w'. unfold renderGate.
  pose proof (kept_runOp HRender (Render (sim w)) h now
                (realtime ubase base now) w) as K.
  pose proof (trace_runOp HRender (Render (sim w)) h now
                (realtime ubase base now) w) as Ht.
  assert (Hi : forall hk, Hook_eqb HRender hk = false ->
            invocations hk (trace (runOp HRender (Render (sim w)) h now
                                     (realtime ubase base now) w)) =
            invocations hk (trace w)).
  { intros hk Hk. rewrite Ht, invocations_app.
    rewrite invocations_hook_events by exact Hk. apply app_nil_r. }
  destruct (0 <? rfps (sim w)); [destruct (renderTime (sim w) <=? now)%float |];
    cbn; repeat split; auto; destruct K; cbn in *; congruence.
Qed.

Lemma runSim_unfold (fuel : nat) (ubase : Z) (stop : chan) (w : World) :
  fired w stop = false ->
  runSim fuel ubase stop w =
  match stepping fuel ubase w with
  | Running w' => Running w'
  | Returned (h, now) w' =>
      Returned None (renderGate ubase (baseTime (sim w)) h now w')
  end.
Proof. intros Hs. unfold runSim. rewrite Hs. reflexivity. Qed.


(** ** The stepper at work *)

Example demo_sim_NewSim (renderfps : Z) :
  option_map (set_hooks (Some idle) (Some idle) (Some idle))
    (match NewSim 2 renderfps (chan_ref 0) with
     | Returns s => Some s
     | Panics _ => None
     end) = Some (demo_sim renderfps).
Proof. reflexivity. Qed.



(** ** The loop as a sequence of small steps *)

Section Steps.

(** The acts the other goroutines are allowed. *)
Variable allowed : Act -> Prop.

Lemma steps_one w w' : step allowed w w' -> steps allowed w w'.
Proof. intros H. eapply steps_next; [exact H | apply steps_refl]. Qed.

Lemma steps_trans a b c :
  steps allowed a b -> steps allowed b c -> steps allowed a c.
Proof.
  induction 1 as [| w1 w2 w3 H12 _ IH]; intros H; [exact H |].
  eapply steps_next; [exact H12 | apply IH, H].
Qed.

(** An invariant of the steps is an invariant of any sequence of them. *)
Lemma steps_invariant (P : World -> Prop) :
  (forall w w', step allowed w w' -> P w -> P w') ->
  forall w w', steps allowed w w' -> P w -> P w'.
Proof.
  intros Hstep w w' H. induction H as [| w1 w2 w3 H12 _ IH]; eauto.
Qed.

Lemma pollLoop_steps (n : nat) h ft rt :
  forall w, steps allowed w (pollLoop n (sched (sim w)) h ft rt w).
Proof.
  induction n as [| n IH]; intros w; cbn.
  - destruct (recv (sched (sim w)) (sendq w)) as [[x q] |]; apply steps_refl.
  - destruct (recv (sched (sim w)) (sendq w)) as [[x q] |] eqn:Hr;
      [| apply steps_refl].
    set (w1 := Do_sent x h ft rt (log (EvRecv (snd_id x)) (set_sendq q w))).
    assert (Hc : sched (sim w) = sched (sim w1)).
    { symmetry. unfold w1.
      apply (kept_sched (set_sendq q w)).
      eapply kept_trans; [apply kept_log | apply kept_Do_sent]. }
    eapply steps_next; [apply step_handoff, Hr |].
    fold w1. rewrite Hc. apply IH.
Qed.

Lemma runOp_steps hk h ft rt (w : World) (op : option Op) :
  is_hook hk = true -> In op (hooks_of (sim w)) ->
  steps allowed w (runOp hk op h ft rt w).
Proof.
  intros Hk Hin. destruct op as [f |]; cbn; [| apply steps_refl].
  apply steps_one, step_hook; assumption.
Qed.

Lemma frame_steps h ft rt (w : World) : steps allowed w (frame h ft rt w).
Proof.
  unfold frame. eapply steps_trans; [apply pollLoop_steps |].
  apply runOp_steps; [reflexivity |]. cbn. auto.
Qed.

Lemma stepLoop_steps (fuel : nat) ubase base :
  forall h sim0 now w,
    steps allowed w (world_of (stepLoop fuel ubase base h sim0 now w)).
Proof.
  induction fuel as [| fuel IH]; intros h sim0 now w; cbn.
  - destruct (sim0 <? now)%float; apply steps_refl.
  - destruct (sim0 <? now)%float; [| apply steps_refl].
    eapply steps_trans; [apply frame_steps |].
    eapply steps_next; [apply step_simTime |].
    eapply steps_next; [apply step_read |].
    apply IH.
Qed.

Lemma stepping_steps (fuel : nat) ubase (w : World) :
  steps allowed w (world_of (stepping fuel ubase w)).
Proof.
  rewrite stepping_unfold.
  eapply steps_trans; [| apply stepLoop_steps].
  unfold preframed.
  eapply steps_trans; [| apply steps_one, step_read].
  apply runOp_steps; [reflexivity | cbn; auto].
Qed.

Lemma renderGate_steps ubase base h now (w : World) :
  steps allowed w (renderGate ubase base h now w).
Proof.
  unfold renderGate.
  assert (Hr : steps allowed w (runOp HRender (Render (sim w)) h now
                          (realtime ubase base now) w))
    by (apply runOp_steps; [reflexivity | cbn; auto]).
  destruct (0 <? rfps (sim w)); [destruct (renderTime (sim w) <=? now)%float |];
    try apply steps_refl;
    (eapply steps_trans; [exact Hr | apply steps_one, step_renderTime]).
Qed.

Lemma runSim_steps (fuel : nat) ubase stop (w : World) :
  steps allowed w (world_of (runSim fuel ubase stop w)).
Proof.
  unfold runSim. destruct (fired w stop); [apply steps_refl |].
  pose proof (stepping_steps fuel ubase w) as Hs.
  destruct (stepping fuel ubase w) as [[h now] w1 | w1]; cbn in *;
    [| exact Hs].
  eapply steps_trans; [exact Hs | apply renderGate_steps].
Qed.

Lemma others_steps (acts : list Act) :
  Forall allowed acts -> forall w, steps allowed w (others acts w).
Proof.
  induction 1 as [| a acts Ha _ IH]; intros w; cbn; [apply steps_refl |].
  eapply steps_next; [apply step_act, Ha | apply IH].
Qed.

Lemma runLoop_steps (fuel : nat) ubase stop (rounds : list (list Act)) :
  Forall (Forall allowed) rounds ->
  forall w, steps allowed w (world_of (runLoop fuel ubase stop rounds w)).
Proof.
  induction 1 as [| acts rounds Ha _ IH]; intros w; cbn; [apply steps_refl |].
  pose proof (runSim_steps fuel ubase stop (others acts w)) as Hs.
  pose proof (others_steps acts Ha w) as Ho.
  destruct (runSim fuel ubase stop (others acts w)) as [[err |] w1 | w1];
    cbn in *.
  - eapply steps_trans; eassumption.
  - eapply steps_trans; [exact Ho |]. eapply steps_trans; [exact Hs | apply IH].
  - eapply steps_trans; eassumption.
Qed.

End Steps.

(** ** The render gate *)

Lemma gated_app r t l1 t1 l2 t2 :
  gated r t l1 t1 -> gated r t1 l2 t2 -> gated r t (l1 ++ l2) t2.
Proof.
  revert t. induction l1 as [| [[h a] rt] l1 IH]; intros t; cbn.
  - intros ->. auto.
  - intros [Ha Hg] H2. split; [exact Ha | eapply IH; eassumption].
Qed.

Lemma gated_spaced r t l t' : gated r t l t' -> spaced r l.
Proof.
  revert t. induction l as [| [[h a] rt] l IH]; intros t; cbn; [auto |].
  intros [_ Hg]. split; [| eapply IH, Hg].
  destruct l as [| [[h2 b] rt2] l]; [exact I |]. cbn in Hg. apply Hg.
Qed.

Lemma recv_In (c : chan) (q r : list Sender) (x : Sender) :
  recv c q = Some (x, r) -> In x q /\ on_chan c x = true /\ incl r q.
Proof.
  revert r. induction q as [| y q IH]; intros r; cbn; [discriminate |].
  destruct (on_chan c y) eqn:Hy.
  - intros H. injection H as -> ->. repeat split; auto using incl_tl, incl_refl.
  - destruct (recv c q) as [[z t] |]; [| discriminate].
    intros H. injection H as -> <-.
    destruct (IH t eq_refl) as (Hin & Hon & Hincl). repeat split; auto.
    intros a [-> | Ha]; [left; reflexivity | right; apply Hincl, Ha].
Qed.

Lemma calm_do_call (c : Call) (w : World) :
  calm_call c = true ->
  rfps (sim (do_call c w)) = rfps (sim w) /\
  rhz (sim (do_call c w)) = rhz (sim w).
Proof.
  destruct c as [n | n | i]; cbn; try discriminate; intros _; auto.
  unfold SetFPS. destruct (n <? 0); auto.
Qed.

Lemma calm_do_calls (cs : list Call) :
  forallb calm_call cs = true ->
  forall w, rfps (sim (do_calls cs w)) = rfps (sim w) /\
            rhz (sim (do_calls cs w)) = rhz (sim w).
Proof.
  induction cs as [| c cs IH]; cbn; intros H w; [auto |].
  apply andb_prop in H. destruct H as [Hc Hcs].
  destruct (IH Hcs (do_call c (log (EvCall c) w))) as [H1 H2].
  destruct (calm_do_call c (log (EvCall c) w) Hc) as [H3 H4].
  unfold do_calls in *. cbn in *. split; congruence.
Qed.

Lemma calm_Do R r hk op h ft rt (w : World) :
  calm_op op -> calm R r w -> calm R r (Do hk op h ft rt w).
Proof.
  intros Hop (HR & Hr & Hh & Hq).
  pose proof (kept_Do hk op h ft rt w) as K.
  destruct (calm_do_calls (op h ft rt) (Hop h ft rt) (log (EvDo hk h ft rt) w))
    as [H1 H2].
  unfold calm, hooks_of in *. fold (Do hk op h ft rt w) in H1, H2.
  change (sim (log (EvDo hk h ft rt) w)) with (sim w) in H1, H2.
  destruct K as [_ _ _ Ksq _ _ Kp Kf Kr _ _ _ _ _ _].
  split; [congruence | split; [congruence | split]].
  - intros f. rewrite Kp, Kf, Kr. apply Hh.
  - rewrite Ksq. exact Hq.
Qed.

Lemma calm_same_sim R r (w w' : World) :
  rfps (sim w') = rfps (sim w) -> rhz (sim w') = rhz (sim w) ->
  hooks_of (sim w') = hooks_of (sim w) -> incl (sendq w') (sendq w) ->
  calm R r w -> calm R r w'.
Proof.
  intros H1 H2 H3 H4 (HR & Hr & Hh & Hq). unfold calm.
  rewrite H1, H2, H3. repeat split; auto.
  rewrite Forall_forall in *. intros x Hx. apply Hq, H4, Hx.
Qed.

Lemma calm_step R r (w w' : World) :
  step calm_act w w' -> calm R r w -> calm R r w'.
Proof.
  intros Hs Hc. destruct Hs as [w x q h ft rt Hr | w hk f h ft rt Hk Hf | w
                               | w t | w t | w a Ha].
  - apply recv_In in Hr. destruct Hr as (Hin & _ & Hincl).
    assert (Hx : calm_op (snd_op x)).
    { destruct Hc as (_ & _ & _ & Hq). rewrite Forall_forall in Hq.
      apply Hq, Hin. }
    unfold Do_sent.
    assert (Hc1 : calm R r (log (EvRecv (snd_id x)) (set_sendq q w)))
      by (revert Hc; apply calm_same_sim; auto).
    pose proof (calm_Do R r (HOp (snd_id x)) (snd_op x) h ft rt _ Hx Hc1) as Hc2.
    destruct (snd_sync x); [| exact Hc2].
    revert Hc2. apply calm_same_sim; auto using incl_refl.
  - apply calm_Do; [| exact Hc]. destruct Hc as (_ & _ & Hh & _). apply Hh, Hf.
  - revert Hc. apply calm_same_sim; auto using incl_refl.
  - revert Hc. apply calm_same_sim; auto using incl_refl.
  - revert Hc. apply calm_same_sim; auto using incl_refl.
  - destruct a as [c | op | op | g]; cbn in *.
    + destruct (calm_do_call c w Ha) as [H1 H2].
      pose proof (kept_do_call c w) as K.
      revert Hc. apply calm_same_sim; auto.
      * unfold hooks_of. destruct K. congruence.
      * rewrite (kept_sendq _ _ K). apply incl_refl.
    + destruct Hc as (HR & Hr & Hh & Hq). unfold calm. cbn.
      repeat split; auto. apply Forall_app. split; [exact Hq |].
      constructor; [exact Ha | constructor].
    + destruct Hc as (HR & Hr & Hh & Hq). unfold calm. cbn.
      repeat split; auto. apply Forall_app. split; [exact Hq |].
      constructor; [exact Ha | constructor].
    + revert Hc. apply calm_same_sim; auto. cbn. apply incl_filter.
Qed.

Lemma act_quiet (a : Act) (w : World) :
  stable w (act a w) /\ trace (act a w) = trace w /\
  renderTime (sim (act a w)) = renderTime (sim w).
Proof.
  destruct a as [c | op | op | g]; cbn.
  - pose proof (kept_do_call c w) as K.
    split; [apply kept_stable, K |].
    split; [apply trace_do_call | apply (kept_renderTime _ _ K)].
  - repeat split.
  - repeat split.
  - repeat split.
Qed.

Lemma others_quiet (acts : list Act) :
  forall w, stable w (others acts w) /\ trace (others acts w) = trace w /\
            renderTime (sim (others acts w)) = renderTime (sim w).
Proof.
  induction acts as [| a acts IH]; intros w; cbn.
  - split; [apply stable_refl | auto].
  - destruct (act_quiet a w) as (S1 & T1 & R1).
    destruct (IH (act a w)) as (S2 & T2 & R2).
    unfold others in *.
    split; [eapply stable_trans; eassumption | split; congruence].
Qed.

Lemma renderGate_limited ubase base h now (w : World) (f : Op) :
  0 < rfps (sim w) ->
  Render (sim w) = Some f ->
  let w' := renderGate ubase base h now w in
  if (renderTime (sim w) <=? now)%float then
    invocations HRender (trace w') =
    invocations HRender (trace w) ++ [(h, now, realtime ubase base now)] /\
    renderTime (sim w') = (now + rhz (sim w))%float
  else w' = w.
Proof.
  intros HR Hf w'. subst w'. unfold renderGate.
  destruct (Z.ltb_spec 0 (rfps (sim w))) as [_ | Hle]; [| lia].
  destruct (renderTime (sim w) <=? now)%float; [| reflexivity].
  rewrite Hf. cbn [runOp]. split; [| reflexivity].
  change (invocations HRender (trace (Do HRender f h now (realtime ubase base now) w))
          = invocations HRender (trace w) ++ [(h, now, realtime ubase base now)]).
  rewrite trace_Do, invocations_app, invocations_Do_events. reflexivity.
Qed.

Lemma runSim_gated (R : Z) (r : float64) fuel ubase stop (w : World) (f : Op) :
  0 < R -> calm R r w -> Render (sim w) = Some f ->
  let w' := world_of (runSim fuel ubase stop w) in
  exists news,
    invocations HRender (trace w') = invocations HRender (trace w) ++ news /\
    gated r (renderTime (sim w)) news (renderTime (sim w')) /\
    calm R r w' /\ Render (sim w') = Some f.
Proof.
  intros HR Hc Hf w'. subst w'.
  pose proof (steps_invariant calm_act (calm R r) (calm_step R r) _ _
                (runSim_steps calm_act fuel ubase stop w) Hc) as Hc'.
  unfold runSim in *. destruct (fired w stop).
  - exists []. cbn. rewrite app_nil_r. auto.
  - pose proof (stepping_no_render fuel ubase w) as (St & Hrt & _ & _ & Hi).
    pose proof (steps_invariant calm_act (calm R r) (calm_step R r) _ _
                  (stepping_steps calm_act fuel ubase w) Hc) as Hc1.
    destruct (stepping fuel ubase w) as [[h now] w1 | w1]; cbn in *.
    + assert (Hf1 : Render (sim w1) = Some f)
        by (rewrite (stable_Render _ _ St); exact Hf).
      assert (HR1 : 0 < rfps (sim w1)) by (destruct Hc1 as (-> & _); exact HR).
      pose proof (renderGate_limited ubase (baseTime (sim w)) h now w1 f HR1 Hf1)
        as Hg. cbn in Hg.
      pose proof (stable_renderGate ubase (baseTime (sim w)) h now w1) as St2.
      rewrite (stable_Render _ _ St2), Hf1.
      destruct (renderTime (sim w1) <=? now)%float eqn:Hle.
      * destruct Hg as [Hg1 Hg2].
        exists [(h, now, realtime ubase (baseTime (sim w)) now)].
        rewrite Hg1, Hg2, Hi. cbn. rewrite <- Hrt.
        destruct Hc1 as (_ & -> & _). auto.
      * rewrite Hg. exists []. rewrite app_nil_r. cbn. auto.
    + exists []. rewrite app_nil_r. cbn.
      rewrite (stable_Render _ _ St). auto.
Qed.

Lemma runLoop_gated (R : Z) (r : float64) fuel ubase stop (f : Op)
  (rounds : list (list Act)) :
  0 < R -> Forall (Forall calm_act) rounds ->
  forall w, calm R r w -> Render (sim w) = Some f ->
    exists news,
      invocations HRender (trace (world_of (runLoop fuel ubase stop rounds w)))
      = invocations HRender (trace w) ++ news /\
      gated r (renderTime (sim w)) news
            (renderTime (sim (world_of (runLoop fuel ubase stop rounds w)))).
Proof.
  intros HR Hrounds.
  induction Hrounds as [| acts rounds Ha _ IH]; intros w Hc Hf; cbn.
  - exists []. rewrite app_nil_r. cbn. auto.
  - destruct (others_quiet acts w) as (St & Ht & Hrt).
    pose proof (steps_invariant calm_act (calm R r) (calm_step R r) _ _
                  (others_steps calm_act acts Ha w) Hc) as Hc1.
    assert (Hf1 : Render (sim (others acts w)) = Some f)
      by (rewrite (stable_Render _ _ St); exact Hf).
    destruct (runSim_gated R r fuel ubase stop (others acts w) f HR Hc1 Hf1)
      as (news & Hi & Hg & Hc2 & Hf2).
    rewrite Ht, Hrt in *.
    destruct (runSim fuel ubase stop (others acts w)) as [[err |] w1 | w1];
      cbn in *; try (exists news; auto; fail).
    destruct (IH w1 Hc2 Hf2) as (news2 & Hi2 & Hg2).
    exists (news ++ news2). rewrite Hi2, Hi, <- app_assoc.
    split; [reflexivity | eapply gated_app; eassumption].
Qed.

(** When the catch-up loop ends, the simulation time is not below the
    reading it ends with, which is the last one taken. *)
Lemma stepLoop_exit (fuel : nat) (ubase : Z) :
  forall (h sim0 now : float64) (w : World) h' now' w',
    simTime (sim w) = sim0 ->
    now = reading w (pred (reads w)) ->
    stepLoop fuel ubase (baseTime (sim w)) h sim0 now w = Returned (h', now') w' ->
    (simTime (sim w') <? now')%float = false /\
    now' = reading w (pred (reads w')).
Proof.
  induction fuel as [| fuel IH]; intros h sim0 now w h' now' w' Hs Hn; cbn.
  - destruct (sim0 <? now)%float eqn:Hlt; [discriminate |].
    intros H. injection H as -> -> ->. rewrite Hs. auto.
  - destruct (sim0 <? now)%float eqn:Hlt.
    + set (rt := realtime ubase (baseTime (sim w)) sim0).
      set (w1 := frame h sim0 rt w).
      pose proof (kept_frame h sim0 rt w) as K. fold w1 in K.
      set (w2 := set_sim (set_simTime (sim0 + h)%float (sim w1)) w1).
      set (h2 := if (sim0 + h <? now)%float then hz (sim w2) else h).
      set (w3 := snd (Now w2)).
      assert (Hbase : baseTime (sim w3) = baseTime (sim w))
        by (destruct K; cbn in *; congruence).
      assert (Hclock : clock w3 = clock w)
        by (destruct K; cbn in *; congruence).
      assert (Hreads : reads w3 = S (reads w))
        by (destruct K; cbn in *; congruence).
      assert (Hnow : fst (Now w2) = reading w (reads w))
        by (unfold reading; destruct K; cbn in *; congruence).
      intros Hrun.
      change (stepLoop fuel ubase (baseTime (sim w)) h2 (sim0 + h)%float
                       (fst (Now w2)) w3 = Returned (h', now') w') in Hrun.
      rewrite <- Hbase in Hrun.
      apply IH in Hrun.
      * unfold reading in *. rewrite Hclock, Hbase in Hrun. exact Hrun.
      * reflexivity.
      * unfold reading. rewrite Hnow, Hreads, Hclock, Hbase. reflexivity.
    + intros H. injection H as -> -> ->. rewrite Hs. auto.
Qed.

Lemma stepping_exit (fuel : nat) (ubase : Z) (w : World) h now w1 :
  stepping fuel ubase w = Returned (h, now) w1 ->
  (simTime (sim w1) <? now)%float = false /\
  now = reading w (pred (reads w1)).
Proof.
  intros Hrun. rewrite stepping_unfold in Hrun.
  pose proof (kept_preframed ubase w) as K.
  destruct K as [Kc Kr _ _ _ _ _ _ _ _ Kb Ks _ _ _]. cbn in Kc, Kr, Kb, Ks.
  apply stepLoop_exit in Hrun.
  - unfold reading in *. rewrite Kc, Kb in Hrun. exact Hrun.
  - exact Ks.
  - unfold reading. rewrite Kc, Kr, Kb. reflexivity.
Qed.

(** C4. In an iteration whose render gate finds the rate limited
    ([rfps > 0]), the [Render] hook is invoked, once and with the last
    reading [now] as its frame time, if [renderTime <= now], and not at
    all otherwise; when it is invoked, [renderTime] becomes [now + rhz].
    So over any run in which the render rate stays at [R > 0], with
    [rhz = 1.0 / float64(R)], every render is at a reading not before the
    deadline and moves the deadline to [rhz] after that reading: the
    frame times [a], [b] of two consecutive renders satisfy
    [a + rhz <= b]. *)
Theorem render_gate_limits_rate :
  (forall fuel ubase stop (w : World) h now w1 f,
      fired w stop = false ->
      stepping fuel ubase w = Returned (h, now) w1 ->
      0 < rfps (sim w1) ->
      Render (sim w) = Some f ->
      exists w',
        runSim fuel ubase stop w = Returned None w' /\
        now = reading w (pred (reads w')) /\
        if (renderTime (sim w) <=? now)%float then
          invocations HRender (trace w') =
          invocations HRender (trace w)
            ++ [(h, now, realtime ubase (baseTime (sim w)) now)] /\
          renderTime (sim w') = (now + rhz (sim w1))%float
        else
          invocations HRender (trace w') = invocations HRender (trace w) /\
          renderTime (sim w') = renderTime (sim w)) /\
  (forall (R : Z) fuel ubase stop rounds (w : World) f,
      0 < R ->
      calm R (1 / float64_of_int R)%float w ->
      Render (sim w) = Some f ->
      Forall (Forall calm_act) rounds ->
      exists news,
        invocations HRender (trace (world_of (runLoop fuel ubase stop rounds w)))
        = invocations HRender (trace w) ++ news /\
        gated (1 / float64_of_int R)%float (renderTime (sim w)) news
              (renderTime (sim (world_of (runLoop fuel ubase stop rounds w)))) /\
        spaced (1 / float64_of_int R)%float news).
Proof.
  split.
  - intros fuel ubase stop w h now w1 f Hstop Hst HR Hf.
    rewrite runSim_unfold by exact Hstop. rewrite Hst.
    eexists. split; [reflexivity |].
    pose proof (stepping_no_render fuel ubase w) as (St & Hrt & _ & _ & Hi).
    rewrite Hst in St, Hrt, Hi. cbn in St, Hrt, Hi.
    destruct (stepping_exit fuel ubase w h now w1 Hst) as [_ Hnow].
    destruct (renderGate_keeps ubase (baseTime (sim w)) h now w1)
      as (_ & Hreads & _).
    rewrite Hreads. split; [exact Hnow |].
    assert (Hf1 : Render (sim w1) = Some f)
      by (rewrite (stable_Render _ _ St); exact Hf).
    pose proof (renderGate_limited ubase (baseTime (sim w)) h now w1 f HR Hf1)
      as Hg. cbn in Hg. rewrite Hrt in Hg.
    destruct (renderTime (sim w) <=? now)%float.
    + rewrite <- Hi. exact Hg.
    + rewrite Hg. auto.
  - intros R fuel ubase stop rounds w f HR Hc Hf Hrounds.
    destruct (runLoop_gated R (1 / float64_of_int R)%float fuel ubase stop f
                rounds HR Hrounds w Hc Hf) as (news & Hi & Hg).
    exists news. split; [exact Hi |]. split; [exact Hg |].
    eapply gated_spaced, Hg.
Qed.

Lemma calm_limited_run : calm 4 (1 / float64_of_int 4)%float limited_run.
Proof.
  repeat split.
  - intros f [H | [H | [H | []]]]; injection H as <-; intros h ft rt; reflexivity.
  - constructor.
Qed.

Lemma render_gate_limits_rate_witness :
  (exists w',
      runSim 4 1000 (chan_ref 0) limited_run = Returned None w' /\
      0.25%float = reading limited_run (pred (reads w')) /\
      invocations HRender (trace w') =
      invocations HRender (trace limited_run)
        ++ [(0.5%float, 0.25%float,
             realtime 1000 (baseTime (sim limited_run)) 0.25%float)] /\
      renderTime (sim w') = 0.5%float) /\
  (exists news,
      invocations HRender
        (trace (world_of (runLoop 4 1000 (chan_ref 0) [[]; []; []] limited_run)))
      = invocations HRender (trace limited_run) ++ news /\
      gated (1 / float64_of_int 4)%float (renderTime (sim limited_run)) news
            (renderTime
               (sim (world_of (runLoop 4 1000 (chan_ref 0) [[]; []; []]
                                       limited_run)))) /\
      spaced (1 / float64_of_int 4)%float news).
Proof.
  split.
  - apply (proj1 render_gate_limits_rate 4%nat 1000 (chan_ref 0) limited_run
                 0.5%float 0.25%float
                 (world_of (stepping 4 1000 limited_run)) idle);
      [reflexivity | reflexivity | reflexivity | reflexivity].
  - apply (proj2 render_gate_limits_rate 4 4%nat 1000 (chan_ref 0) [[]; []; []]
                 limited_run idle);
      [reflexivity | exact calm_limited_run | reflexivity
      | repeat constructor].
Defined.

(** The two renders of [limited_run] are at the readings 0.25 and 0.75;
    the iteration in between, at 0.375, is before the deadline 0.5. *)
Example limited_run_renders :
  map (fun i => snd (fst i))
      (invocations HRender
         (trace (world_of (runLoop 4 1000 (chan_ref 0) [[]; []; []] limited_run))))
  = [0.25; 0.75]%float.
Proof. reflexivity. Qed.

Lemma renderGate_unlimited ubase base h now (w : World) (f : Op) :
  rfps (sim w) <= 0 ->
  Render (sim w) = Some f ->
  let w' := renderGate ubase base h now w in
  invocations HRender (trace w') =
  invocations HRender (trace w) ++ [(h, now, realtime ubase base now)] /\
  renderTime (sim w') = now.
Proof.
  intros HR Hf w'. subst w'. unfold renderGate.
  destruct (Z.ltb_spec 0 (rfps (sim w))) as [Hlt | _]; [lia |].
  rewrite Hf. cbn [runOp]. split; [| reflexivity].
  change (invocations HRender (trace (Do HRender f h now (realtime ubase base now) w))
          = invocations HRender (trace w) ++ [(h, now, realtime ubase base now)]).
  rewrite trace_Do, invocations_app, invocations_Do_events. reflexivity.
Qed.

(** C3, as the code has it. In an iteration whose render gate finds the
    rate unlimited ([rfps <= 0]), the [Render] hook is invoked exactly
    once, and its frame time is [now], the last reading of [Now()] taken
    by the catch-up loop; [renderTime] is set to it. The simulation time
    is not below that reading, and may be above it. *)
Theorem unlimited_render_at_last_reading (fuel : nat) (ubase : Z) (stop : chan)
  (w : World) (h now : float64) (w1 : World) (f : Op) :
  fired w stop = false ->
  stepping fuel ubase w = Returned (h, now) w1 ->
  rfps (sim w1) <= 0 ->
  Render (sim w) = Some f ->
  exists w',
    runSim fuel ubase stop w = Returned None w' /\
    invocations HRender (trace w') =
    invocations HRender (trace w)
      ++ [(h, now, realtime ubase (baseTime (sim w)) now)] /\
    now = reading w (pred (reads w')) /\
    (simTime (sim w') <? now)%float = false /\
    renderTime (sim w') = now.
Proof.
  intros Hstop Hst HR Hf.
  rewrite runSim_unfold by exact Hstop. rewrite Hst.
  eexists. split; [reflexivity |].
  pose proof (stepping_no_render fuel ubase w) as (St & _ & _ & _ & Hi).
  rewrite Hst in St, Hi. cbn in St, Hi.
  destruct (stepping_exit fuel ubase w h now w1 Hst) as [Hlt Hnow].
  destruct (renderGate_keeps ubase (baseTime (sim w)) h now w1)
    as (Hsim & Hreads & _).
  assert (Hf1 : Render (sim w1) = Some f)
    by (rewrite (stable_Render _ _ St); exact Hf).
  destruct (renderGate_unlimited ubase (baseTime (sim w)) h now w1 f HR Hf1)
    as [Hg1 Hg2].
  rewrite Hg1, Hg2, Hsim, Hreads, Hi. auto.
Qed.

Lemma unlimited_render_at_last_reading_witness :
  exists w',
    runSim 4 1000 (chan_ref 0) half_step = Returned None w' /\
    invocations HRender (trace w') =
    invocations HRender (trace half_step)
      ++ [(0.5%float, 0.375%float,
           realtime 1000 (baseTime (sim half_step)) 0.375%float)] /\
    0.375%float = reading half_step (pred (reads w')) /\
    (simTime (sim w') <? 0.375)%float = false /\
    renderTime (sim w') = 0.375%float.
Proof.
  apply (unlimited_render_at_last_reading 4 1000 (chan_ref 0) half_step
           0.5%float 0.375%float (world_of (stepping 4 1000 half_step)) idle);
    [reflexivity | reflexivity | cbn; lia | reflexivity].
Defined.

(** C3, counterexample. With the rate unlimited, the [Render] hook of the
    iteration of [half_step] gets the frame time 0.375, the last reading,
    while the simulation time reached by the stepping is 0.5. *)
Lemma render_frame_time_is_not_simTime :
  exists w',
    runSim 4 1000 (chan_ref 0) half_step = Returned None w' /\
    rfps (sim w') = 0 /\
    invocations HRender (trace w') =
      [(0.5%float, 0.375%float, mkTime 1000 375000000)] /\
    simTime (sim w') = 0.5%float /\
    (0.375 =? 0.5)%float = false.
Proof.
  eexists. split; [reflexivity |]. repeat split.
Qed.

(** ** Stopping *)

Lemma runSim_returned (fuel : nat) ubase stop (w : World) e w' :
  runSim fuel ubase stop w = Returned e w' ->
  (e = Some ErrStopped /\ w' = w /\ fired w stop = true) \/
  (e = None /\ fired w stop = false).
Proof.
  unfold runSim. destruct (fired w stop).
  - intros H. injection H as <- <-. left. auto.
  - destruct (stepping fuel ubase w) as [[h now] w1 | w1]; [| discriminate].
    intros H. injection H as <- _. right. auto.
Qed.

Lemma runLoop_returned (fuel : nat) ubase stop (rounds : list (list Act)) :
  forall w e w',
    runLoop fuel ubase stop rounds w = Returned e w' ->
    e = Some ErrStopped /\ fired w' stop = true.
Proof.
  induction rounds as [| acts rounds IH]; intros w e w'; cbn [runLoop];
    [discriminate |].
  destruct (runSim fuel ubase stop (others acts w)) as [[err |] w1 | w1] eqn:Hr.
  - intros H. injection H as <- <-.
    apply runSim_returned in Hr.
    destruct Hr as [(He & -> & Hf) | (He & _)]; [auto | discriminate].
  - apply IH.
  - discriminate.
Qed.

(** C2, as the code has it. An iteration that begins with the stop
    channel closed makes [Run] return, and whenever [Run] returns, the
    stop channel is closed and the error returned is [ErrStopped]; it is
    never nil. *)
Theorem Run_returns_ErrStopped :
  (forall fuel ubase stop acts rest (w : World),
      fired (others acts w) stop = true ->
      runLoop fuel ubase stop (acts :: rest) w
      = Returned (Some ErrStopped) (others acts w)) /\
  (forall fuel rounds (w : World) e w',
      Run fuel rounds w = Returned e w' ->
      e = Some ErrStopped /\ fired w' (stopped (sim w)) = true).
Proof.
  split.
  - intros fuel ubase stop acts rest w Hf. cbn [runLoop]. unfold runSim.
    rewrite Hf. reflexivity.
  - intros fuel rounds w e w'. unfold Run, start.
    cbn [make_chan GetTime stopped sim].
    apply runLoop_returned.
Qed.

Lemma Run_returns_ErrStopped_witness :
  runLoop 4 1000 (chan_ref 0) [[ActCall (CallClose 0)]] half_step
  = Returned (Some ErrStopped) (others [ActCall (CallClose 0)] half_step) /\
  (Some ErrStopped = Some ErrStopped /\
   fired (world_of stopped_run)
         (stopped (sim (world_at (demo_sim 0) [0; 0.25; 0.375]%float))) = true).
Proof.
  split.
  - apply (proj1 Run_returns_ErrStopped 4%nat 1000 (chan_ref 0)
                 [ActCall (CallClose 0)] [] half_step).
    vm_compute. reflexivity.
  - apply (proj2 Run_returns_ErrStopped 4%nat [[]; [ActCall (CallClose 0)]]
                 (world_at (demo_sim 0) [0; 0.25; 0.375]%float)
                 (Some ErrStopped) (world_of stopped_run)).
    vm_compute. reflexivity.
Defined.

(** C2, counterexample. The stop channel is closed and [Run] returns, but
    the error is [ErrStopped], not nil. *)
Lemma Run_error_is_not_nil :
  exists w',
    stopped_run = Returned (Some ErrStopped) w' /\
    fired w' (chan_ref 0) = true /\
    Some ErrStopped <> (None : error).
Proof.
  exists (world_of stopped_run).
  split; [vm_compute; reflexivity |].
  split; [vm_compute; reflexivity | discriminate].
Qed.

(** ** Submissions made before [Run] *)

Lemma fired_close (i : nat) (w : World) (c : chan) :
  fired w c = true -> fired (close_chan i w) c = true.
Proof.
  destruct c as [| j]; cbn; [auto |]. intros ->. apply orb_true_r.
Qed.

Lemma fired_do_call (c : Call) (w : World) (s : chan) :
  fired w s = true -> fired (do_call c w) s = true.
Proof.
  destruct c as [n | n | i]; cbn [do_call]; auto using fired_close.
Qed.








Lemma Forall_allowed_all (l : list Act) : Forall (fun _ : Act => True) l.
Proof. induction l; constructor; auto. Qed.

Lemma Forall_rounds_all (rounds : list (list Act)) :
  Forall (Forall (fun _ : Act => True)) rounds.
Proof. induction rounds; constructor; auto using Forall_allowed_all. Qed.



Lemma Run_unfold (fuel : nat) (rounds : list (list Act)) (w : World) :
  Run fuel rounds w =
  runLoop fuel (unix_now w) (stopped (sim w)) rounds (started w).
Proof. reflexivity. Qed.



(** The same op submitted once the loop has started is handed over and
    run in the next increment. *)
Example late_sync_is_run :
  trace (world_of (runSim 4 1000 (chan_ref 0)
                     (Sync early_sync_op (started early_world))))
  = [EvDo HPreFrame 0.5 0 (mkTime 1000 0);
     EvRecv 0; EvDo (HOp 0) 0.5 0 (mkTime 1000 0); EvCall (CallSetFPS 4);
     EvDone 0;
     EvDo HFrame 0.5 0 (mkTime 1000 0);
     EvDo HRender 0.5 0.375 (mkTime 1000 375000000)]%float.
Proof. vm_compute. reflexivity. Qed.

(** ** Rate changes during the catch-up *)

(** C5, the failing run. The first increment runs the op, which sets
    [hz] to 0.25, and ends with [sim = 0.5], not below the old reading
    0.25, so [hz] is not read again; the new reading 1 then calls for a
    second increment, which is made with the step 0.5 although [hz] has
    been 0.25 since before it began. *)
Lemma stale_hz_after_late_reading :
  let w' := world_of (runSim 4 1000 (chan_ref 0) stale_world) in
  trace w' =
    [EvDo HPreFrame 0.5 0 (mkTime 1000 0);
     EvRecv 0; EvDo (HOp 0) 0.5 0 (mkTime 1000 0); EvCall (CallSetFPS 4);
     EvDo HFrame 0.5 0 (mkTime 1000 0);
     EvDo HFrame 0.5 0.5 (mkTime 1000 500000000);
     EvDo HRender 0.5 1 (mkTime 1001 0)]%float /\
  hz (sim w') = 0.25%float /\
  simTime (sim w') = 1%float.
Proof. vm_compute. repeat split. Qed.

(** When the first reading is already 1, the same rate change does take
    effect on the next increment: [sim = 0.5] is below the old reading, so
    [hz] is read again. *)
Example fresh_hz_after_early_reading :
  map (fun i => (fst (fst i), snd (fst i)))
      (invocations HFrame
         (trace (world_of (runSim 4 1000 (chan_ref 0)
                   (Sched set_rate_op
                      (started (world_at (demo_sim 0) [0; 1; 1]%float)))))))
  = [(0.5, 0); (0.25, 0.5); (0.25, 0.75)]%float.
Proof. vm_compute. reflexivity. Qed.


(** ** Infinite simulation time *)

(** Nothing is above positive infinity. *)
Lemma ltb_infinity (x : float64) : (infinity <? x)%float = false.
Proof.
  rewrite ltb_spec.
  destruct (Prim2SF x) as [s | s | | s m e]; try destruct s; reflexivity.
Qed.

(** ** The rates agree throughout *)

Lemma rate_ok_SetFPS (n : Z) (s : Sim) : rate_ok s -> rate_ok (snd (SetFPS n s)).
Proof.
  intros (H1 & H2 & H3). unfold SetFPS.
  destruct (Z.ltb_spec n 0) as [Hlt | Hge]; cbn; [repeat split; auto |].
  repeat split; auto.
Qed.

Lemma rate_ok_SetRenderFPS (n : Z) (s : Sim) :
  rate_ok s -> rate_ok (snd (SetRenderFPS n s)).
Proof.
  intros (H1 & H2 & H3). unfold SetRenderFPS. cbn. repeat split; auto.
Qed.

Lemma rate_ok_do_call (c : Call) (w : World) :
  rate_ok (sim w) -> rate_ok (sim (do_call c w)).
Proof.
  destruct c as [n | n | i]; cbn [do_call set_sim sim];
    auto using rate_ok_SetFPS, rate_ok_SetRenderFPS.
Qed.

Lemma rate_ok_do_calls (cs : list Call) :
  forall w, rate_ok (sim w) -> rate_ok (sim (do_calls cs w)).
Proof.
  induction cs as [| c cs IH]; intros w H; cbn; [exact H |].
  apply IH, rate_ok_do_call. exact H.
Qed.

Lemma rate_ok_Do hk op h ft rt (w : World) :
  rate_ok (sim w) -> rate_ok (sim (Do hk op h ft rt w)).
Proof. intros H. unfold Do. apply rate_ok_do_calls. exact H. Qed.

Lemma rate_ok_step (w w' : World) :
  step (fun _ => True) w w' -> rate_ok (sim w) -> rate_ok (sim w').
Proof.
  intros Hs H.
  destruct Hs as [w x q h ft rt Hr | w hk f h ft rt Hk Hf | w | w t | w t
                 | w a _].
  - unfold Do_sent.
    destruct (snd_sync x); cbn [log sim]; apply rate_ok_Do; exact H.
  - apply rate_ok_Do. exact H.
  - exact H.
  - exact H.
  - exact H.
  - destruct a as [c | op | op | g]; cbn; auto using rate_ok_do_call.
Qed.

(** X1. The rate fields stay in agreement for the whole life of a [Sim]:
    [NewSim] returns them so, and whatever hooks, ops and other goroutines
    do through [SetFPS] and [SetRenderFPS], before [Run] and during it,
    [fps] is never negative, [hz] is [1.0 / float64(fps)], and [rhz] is
    [1.0 / float64(rfps)] while [rfps > 0]. *)
Theorem rates_agree_throughout :
  (forall n renderfps stop s,
      NewSim n renderfps stop = Returns s -> rate_ok s) /\
  (forall (pre : list Act) (fuel : nat) (rounds : list (list Act)) (w : World),
      rate_ok (sim w) ->
      rate_ok (sim (world_of (Run fuel rounds (others pre w))))).
Proof.
  split.
  - intros n renderfps stop s. unfold NewSim.
    destruct (Z.leb_spec n 0) as [Hle | Hgt]; [discriminate |].
    intros H. injection H as <-. unfold rate_ok. cbn.
    split; [lia |]. split; [reflexivity |].
    intros Hr. destruct (Z.ltb_spec 0 renderfps); [reflexivity | lia].
  - intros pre fuel rounds w H. rewrite Run_unfold.
    apply (steps_invariant (fun _ => True) (fun w => rate_ok (sim w))
             rate_ok_step (started (others pre w))).
    + apply runLoop_steps, Forall_rounds_all.
    + change (rate_ok (sim (others pre w))).
      apply (steps_invariant (fun _ => True) (fun w => rate_ok (sim w))
               rate_ok_step w); [| exact H].
      apply others_steps, Forall_allowed_all.
Qed.

(** X2. Setting the step rate and then setting it back to the value
    [SetFPS] returned restores the [Sim]: on a [Sim] whose rates agree,
    [SetFPS(n)] with [n >= 0] returns the old rate and no error, and
    [SetFPS] of that old rate returns [n], no error, and the [Sim] as it
    was. *)
Theorem SetFPS_restore (n : Z) (s : Sim) :
  rate_ok s -> 0 <= n ->
  fst (SetFPS n s) = (fps s, None) /\
  SetFPS (fps s) (snd (SetFPS n s)) = ((n, None), s).
Proof.
  intros (H1 & H2 & _) Hn. unfold SetFPS.
  destruct (Z.ltb_spec n 0) as [Hlt | _]; [lia |].
  cbn [fst snd set_rate fps].
  destruct (Z.ltb_spec (fps s) 0) as [Hlt | _]; [lia |].
  split; [reflexivity |].
  destruct s. cbn in *. subst. reflexivity.
Qed.

(** X3. [SetRenderFPS] never fails and returns the previous render rate.
    If [rhz] was [1.0 / float64(rfps)], as it is for a limited rate,
    setting the rate back to the value returned restores the [Sim]. *)
Theorem SetRenderFPS_restore (n : Z) (s : Sim) :
  rhz s = (1 / float64_of_int (rfps s))%float ->
  fst (SetRenderFPS n s) = rfps s /\
  SetRenderFPS (rfps s) (snd (SetRenderFPS n s)) = (n, s).
Proof.
  intros Hr. unfold SetRenderFPS. cbn.
  split; [reflexivity |].
  destruct s. cbn in *. subst. reflexivity.
Qed.

(** ** The log of an iteration *)

(** The log only grows. *)
Lemma step_trace (allowed : Act -> Prop) (w w' : World) :
  step allowed w w' -> exists t, trace w' = trace w ++ t.
Proof.
  intros Hs.
  destruct Hs as [w x q h ft rt Hr | w hk f h ft rt Hk Hf | w | w t | w t
                 | w a _].
  - exists (sent_events h ft rt x). rewrite trace_Do_sent. cbn.
    unfold sent_events. rewrite <- app_assoc. reflexivity.
  - exists (Do_events hk f h ft rt). apply trace_Do.
  - exists []. symmetry. apply app_nil_r.
  - exists []. symmetry. apply app_nil_r.
  - exists []. symmetry. apply app_nil_r.
  - exists []. rewrite app_nil_r. apply act_quiet.
Qed.

Lemma steps_trace (allowed : Act -> Prop) (w w' : World) :
  steps allowed w w' -> exists t, trace w' = trace w ++ t.
Proof.
  induction 1 as [w | w1 w2 w3 H12 _ [t IH]].
  - exists []. symmetry. apply app_nil_r.
  - destruct (step_trace allowed w1 w2 H12) as [t1 H1].
    exists (t1 ++ t). rewrite IH, H1, app_assoc. reflexivity.
Qed.

Lemma renderGate_trace ubase base h now (w : World) :
  trace (renderGate ubase base h now w) = trace w \/
  trace (renderGate ubase base h now w) =
  trace w ++ hook_events HRender (Render (sim w)) h now (realtime ubase base now).
Proof.
  unfold renderGate.
  destruct (0 <? rfps (sim w)); [destruct (renderTime (sim w) <=? now)%float |];
    auto; right; apply trace_runOp.
Qed.

(** X4. The log of one iteration that passes the stop check, whether it
    returns or is still catching up: first the invocation of the
    [PreFrame] hook, with the [hz] and [simTime] sampled at the start of
    the iteration; then the increments, which invoke neither [PreFrame]
    nor [Render]; last, at most one invocation of the [Render] hook. *)
Theorem iteration_log (fuel : nat) (ubase : Z) (stop : chan) (w : World) :
  fired w stop = false ->
  exists mid last,
    trace (world_of (runSim fuel ubase stop w)) =
    trace w
      ++ hook_events HPreFrame (PreFrame (sim w)) (hz (sim w)) (simTime (sim w))
           (realtime ubase (baseTime (sim w)) (simTime (sim w)))
      ++ mid ++ last /\
    invocations HPreFrame mid = [] /\
    invocations HRender mid = [] /\
    (last = [] \/
     exists h now,
       last = hook_events HRender (Render (sim w)) h now
                (realtime ubase (baseTime (sim w)) now)).
Proof.
  intros Hstop. rewrite runSim_unfold by exact Hstop.
  rewrite stepping_unfold.
  set (w0 := preframed ubase w).
  set (o := stepLoop fuel ubase (baseTime (sim w0)) (hz (sim w))
                     (simTime (sim w)) (reading w (reads w)) w0).
  pose proof (stepLoop_stepped fuel ubase (baseTime (sim w0)) (hz (sim w))
                (simTime (sim w)) (reading w (reads w)) w0) as St.
  fold o in St.
  destruct (steps_trace (fun _ => True) w0 (world_of o)
              (stepLoop_steps _ fuel ubase _ _ _ _ w0)) as [mid Hmid].
  assert (Hno : forall hk, is_hook hk = true -> Hook_eqb HFrame hk = false ->
                           invocations hk mid = []).
  { intros hk H1 H2.
    pose proof (stepped_invocations _ _ St hk H1 H2) as Hi.
    rewrite Hmid, invocations_app in Hi.
    rewrite <- (app_nil_r (invocations hk (trace w0))) in Hi at 2.
    apply app_inv_head in Hi. exact Hi. }
  assert (Hr : Render (sim (world_of o)) = Render (sim w)).
  { rewrite (stable_Render _ _ (stepped_stable _ _ St)).
    apply (kept_Render _ _ (kept_preframed ubase w)). }
  pose proof (trace_preframed ubase w) as Hpre. fold w0 in Hpre.
  exists mid.
  destruct o as [[h now] w1 | w1]; cbn [world_of] in *.
  - destruct (renderGate_trace ubase (baseTime (sim w)) h now w1) as [Hg | Hg].
    + exists []. rewrite Hg, Hmid, Hpre, app_nil_r, <- app_assoc.
      repeat split; auto.
    + exists (hook_events HRender (Render (sim w)) h now
                (realtime ubase (baseTime (sim w)) now)).
      rewrite Hg, Hmid, Hpre, Hr, <- !app_assoc.
      repeat split; auto. right. eauto.
  - exists []. rewrite Hmid, Hpre, app_nil_r, <- app_assoc.
    repeat split; auto.
Qed.

(** ** When ops run *)

Lemma receipts_app (a b : list Event) :
  receipts (a ++ b) = receipts a ++ receipts b.
Proof. apply flat_map_app. Qed.

Lemma receipts_calls (cs : list Call) : receipts (map EvCall cs) = [].
Proof. induction cs as [| c cs IH]; cbn; auto. Qed.

Lemma receipts_Do_events hk op h ft rt : receipts (Do_events hk op h ft rt) = [].
Proof. unfold Do_events. cbn. apply receipts_calls. Qed.

Lemma receipts_hook_events hk op h ft rt :
  receipts (hook_events hk op h ft rt) = [].
Proof. destruct op; cbn; [apply receipts_calls | reflexivity]. Qed.

Lemma receipts_sent_events h ft rt (x : Sender) :
  receipts (sent_events h ft rt x) = [snd_id x].
Proof.
  unfold sent_events.
  change (snd_id x :: receipts (Do_events (HOp (snd_id x)) (snd_op x) h ft rt
                                  ++ (if snd_sync x then [EvDone (snd_id x)] else []))
          = [snd_id x]).
  rewrite receipts_app, receipts_Do_events. destruct (snd_sync x); reflexivity.
Qed.



(** ** The order of service *)

Lemma sorted_snoc (l : list nat) (g : nat) :
  StronglySorted lt l -> Forall (fun x => (x < g)%nat) l ->
  StronglySorted lt (l ++ [g]).
Proof.
  induction 1 as [| a l Hs IH Ha]; intros Hg; cbn.
  - constructor; constructor.
  - inversion Hg as [| ? ? Hag Hlg]; subst.
    constructor; [apply IH, Hlg |].
    apply Forall_app. split; [exact Ha | constructor; [exact Hag | constructor]].
Qed.

Lemma sorted_filter_tail (p : Sender -> bool) (a : list nat) (l : list Sender) :
  StronglySorted lt (a ++ map snd_id l) ->
  StronglySorted lt (a ++ map snd_id (filter p l)).
Proof.
  induction a as [| x a IHa]; cbn.
  - induction l as [| y l IHl]; cbn; [auto |].
    intros H. inversion H as [| ? ? Hs Hf]; subst.
    destruct (p y); [| apply IHl, Hs].
    cbn. constructor; [apply IHl, Hs |].
    rewrite Forall_forall in *. intros z Hz. apply Hf.
    apply in_map_iff in Hz. destruct Hz as (u & <- & Hu).
    apply filter_In in Hu. apply in_map, Hu.
  - intros H. inversion H as [| ? ? Hs Hf]; subst.
    constructor; [apply IHa, Hs |].
    rewrite Forall_forall in *. intros z Hz. apply Hf.
    apply in_app_or in Hz. apply in_or_app.
    destruct Hz as [Hz | Hz]; [left; exact Hz | right].
    apply in_map_iff in Hz. destruct Hz as (u & <- & Hu).
    apply filter_In in Hu. apply in_map, Hu.
Qed.

Lemma Forall_filter_tail (P : nat -> Prop) (p : Sender -> bool) (a : list nat)
  (l : list Sender) :
  Forall P (a ++ map snd_id l) -> Forall P (a ++ map snd_id (filter p l)).
Proof.
  rewrite !Forall_forall. intros H z Hz. apply H.
  apply in_app_or in Hz. apply in_or_app.
  destruct Hz as [Hz | Hz]; [left; exact Hz | right].
  apply in_map_iff in Hz. destruct Hz as (u & <- & Hu).
  apply filter_In in Hu. apply in_map, Hu.
Qed.

Lemma queued_filter (c : chan) (p : Sender -> bool) (q : list Sender) :
  queued c (filter p q) = filter p (queued c q).
Proof.
  unfold queued. induction q as [| x q IH]; cbn; [reflexivity |].
  destruct (p x) eqn:Hp, (on_chan c x) eqn:Hc; cbn;
    rewrite ?Hp, ?Hc, IH; reflexivity.
Qed.

Lemma queued_app (c : chan) (a b : list Sender) :
  queued c (a ++ b) = queued c a ++ queued c b.
Proof. apply filter_app. Qed.

Lemma in_order_same (w w' : World) :
  service_order w' = service_order w -> (next_go w <= next_go w')%nat ->
  in_order w -> in_order w'.
Proof.
  intros Hl Hg [H1 H2]. unfold in_order. rewrite Hl. split; [exact H1 |].
  eapply Forall_impl; [| exact H2]. cbn. intros; lia.
Qed.

Lemma in_order_submit (sync : bool) (op : Op) (w : World) :
  in_order w -> in_order (submit sync op w).
Proof.
  intros [H1 H2]. unfold in_order, service_order in *.
  cbn [submit sim sched sendq trace next_go]. rewrite queued_app.
  assert (Hw : Forall (fun g => (g < S (next_go w))%nat)
                 (receipts (trace w)
                    ++ map snd_id (queued (sched (sim w)) (sendq w)))).
  { eapply Forall_impl; [| exact H2]. cbn. intros; lia. }
  unfold queued at 2 4. cbn [filter].
  destruct (on_chan (sched (sim w)) _); cbn [map app snd_id].
  - rewrite map_app, app_assoc. cbn [map snd_id].
    split; [apply sorted_snoc; assumption |].
    apply Forall_app. split; [exact Hw |].
    constructor; [lia | constructor].
  - rewrite app_nil_r. split; assumption.
Qed.

Lemma in_order_step (w w' : World) :
  step (fun _ => True) w w' -> in_order w -> in_order w'.
Proof.
  intros Hs.
  destruct Hs as [w x q h ft rt Hr | w hk f h ft rt Hk Hf | w | w t | w t
                 | w a _].
  - set (w1 := log (EvRecv (snd_id x)) (set_sendq q w)).
    pose proof (kept_Do_sent x h ft rt w1) as K.
    apply recv_Some in Hr. destruct Hr as [Hq _].
    apply in_order_same.
    + unfold service_order.
      rewrite (kept_sched _ _ K), (kept_sendq _ _ K), trace_Do_sent.
      cbn [w1 log set_sendq sim sendq trace]. rewrite Hq.
      rewrite <- !app_assoc, !receipts_app. cbn [receipts flat_map receipt].
      rewrite receipts_Do_events. cbn [app map].
      destruct (snd_sync x); cbn; rewrite <- app_assoc; reflexivity.
    + rewrite (kept_next_go _ _ K). cbn. lia.
  - pose proof (kept_Do hk f h ft rt w) as K.
    apply in_order_same.
    + unfold service_order.
      rewrite (kept_sched _ _ K), (kept_sendq _ _ K), trace_Do, receipts_app,
        receipts_Do_events, app_nil_r. reflexivity.
    + rewrite (kept_next_go _ _ K). lia.
  - apply in_order_same; [reflexivity | cbn; lia].
  - apply in_order_same; [reflexivity | cbn; lia].
  - apply in_order_same; [reflexivity | cbn; lia].
  - destruct a as [c | op | op | g]; cbn [act].
    + pose proof (kept_do_call c w) as K.
      apply in_order_same.
      * unfold service_order.
        rewrite (kept_sched _ _ K), (kept_sendq _ _ K), trace_do_call.
        reflexivity.
      * rewrite (kept_next_go _ _ K). lia.
    + apply in_order_submit.
    + apply in_order_submit.
    + intros [H1 H2]. unfold in_order, service_order, abandon in *.
      cbn [set_sendq sim sched sendq trace next_go]. rewrite queued_filter.
      split; [apply sorted_filter_tail, H1 | apply Forall_filter_tail, H2].
Qed.

(** X6. Ops are served first come, first served, and at most once.
    Starting [Run] with senders blocked in the order in which they
    entered their [select] and nothing received yet, the goroutine numbers
    of the receipts in the log are strictly increasing at any point of the
    run, whatever senders join or give up meanwhile. *)
Theorem ops_served_in_order (fuel : nat) (rounds : list (list Act)) (w : World) :
  receipts (trace w) = [] ->
  StronglySorted lt (map snd_id (sendq w)) ->
  Forall (fun x => (snd_id x < next_go w)%nat) (sendq w) ->
  StronglySorted lt (receipts (trace (world_of (Run fuel rounds w)))).
Proof.
  intros Hr Hs Hg.
  assert (H0 : in_order (started w)).
  { unfold in_order, service_order.
    change (trace (started w)) with (trace w).
    change (sendq (started w)) with (sendq w).
    change (next_go (started w)) with (next_go w).
    rewrite Hr. cbn [app]. unfold queued. split.
    - apply (sorted_filter_tail _ []), Hs.
    - rewrite Forall_forall in *. intros g Hin.
      apply in_map_iff in Hin. destruct Hin as (x & <- & Hx).
      apply filter_In in Hx. apply Hg, Hx. }
  rewrite Run_unfold.
  pose proof (steps_invariant (fun _ => True) in_order in_order_step _ _
                (runLoop_steps _ fuel (unix_now w) (stopped (sim w)) rounds
                   (Forall_rounds_all rounds) (started w)) H0) as [H1 _].
  unfold service_order in H1.
  revert H1. generalize (receipts (trace (world_of
    (runLoop fuel (unix_now w) (stopped (sim w)) rounds (started w))))).
  intros l. generalize (map snd_id (queued (sched (sim (world_of
    (runLoop fuel (unix_now w) (stopped (sim w)) rounds (started w)))))
    (sendq (world_of
    (runLoop fuel (unix_now w) (stopped (sim w)) rounds (started w)))))).
  intros l2. induction l as [| a l IH]; cbn; intros H; [constructor |].
  inversion H as [| ? ? Hs' Hf]; subst.
  constructor; [apply IH, Hs' |].
  apply Forall_app in Hf. apply Hf.
Qed.

(** ** Once stopped *)

Lemma fired_act (a : Act) (w : World) (c : chan) :
  fired w c = true -> fired (act a w) c = true.
Proof.
  destruct a as [k | op | op | g]; cbn [act]; auto using fired_do_call.
Qed.

Lemma fired_others (acts : list Act) :
  forall (w : World) (c : chan),
    fired w c = true -> fired (others acts w) c = true.
Proof.
  induction acts as [| a acts IH]; intros w c H; cbn; [exact H |].
  apply IH, fired_act, H.
Qed.

Lemma others_timer (acts : list Act) :
  forall w, reads (others acts w) = reads w /\
            simTime (sim (others acts w)) = simTime (sim w).
Proof.
  induction acts as [| a acts IH]; intros w; cbn; [auto |].
  destruct (IH (act a w)) as [H1 H2]. unfold others in *. rewrite H1, H2.
  destruct a as [c | op | op | g]; cbn [act]; auto.
  pose proof (kept_do_call c w) as K. destruct K. auto.
Qed.

Lemma runLoop_fired (fuel : nat) ubase stop acts rest (w : World) :
  fired (others acts w) stop = true ->
  runLoop fuel ubase stop (acts :: rest) w
  = Returned (Some ErrStopped) (others acts w).
Proof.
  intros Hf. cbn [runLoop]. unfold runSim. rewrite Hf. reflexivity.
Qed.

(** X7. Closing the stop channel is final. Once it is closed, nothing
    that other goroutines do before the next stop check keeps the loop
    going: [Run]'s loop returns [ErrStopped] at that check, and since the
    channel was closed it has invoked no callback, taken no reading of the
    timer and left the simulation time alone. *)
Theorem stop_is_final (fuel : nat) (ubase : Z) (stop : chan) (acts : list Act)
  (rest : list (list Act)) (w : World) :
  fired w stop = true ->
  exists w',
    runLoop fuel ubase stop (acts :: rest) w = Returned (Some ErrStopped) w' /\
    trace w' = trace w /\ reads w' = reads w /\
    simTime (sim w') = simTime (sim w).
Proof.
  intros Hf. exists (others acts w).
  split.
  - apply runLoop_fired, fired_others, Hf.
  - destruct (others_quiet acts w) as (_ & Ht & _).
    destruct (others_timer acts w) as [Hr Hs]. auto.
Qed.

(** ** The calendar time of a callback *)

Lemma stamped_calls ubase base (cs : list Call) :
  Forall (stamped_at ubase base) (map EvCall cs).
Proof. induction cs; cbn; constructor; cbn; auto. Qed.

Lemma stamped_Do_events ubase base hk op h ft :
  Forall (stamped_at ubase base) (Do_events hk op h ft (realtime ubase base ft)).
Proof.
  unfold Do_events. constructor; [reflexivity | apply stamped_calls].
Qed.

Lemma stamped_hook_events ubase base hk op h ft :
  Forall (stamped_at ubase base) (hook_events hk op h ft (realtime ubase base ft)).
Proof.
  destruct op; cbn [hook_events]; [apply stamped_Do_events | constructor].
Qed.

Lemma stamped_sent_events ubase base h ft (q : list Sender) :
  Forall (stamped_at ubase base)
         (flat_map (sent_events h ft (realtime ubase base ft)) q).
Proof.
  induction q as [| x q IH]; cbn [flat_map]; [constructor |].
  apply Forall_app. split; [| exact IH].
  unfold sent_events. constructor; [exact I |].
  apply Forall_app. split; [apply stamped_Do_events |].
  destruct (snd_sync x); repeat constructor.
Qed.

Lemma stepLoop_stamped (fuel : nat) (ubase : Z) (base : float64) :
  forall (h sim0 now : float64) (w : World),
    exists t,
      trace (world_of (stepLoop fuel ubase base h sim0 now w)) = trace w ++ t /\
      Forall (stamped_at ubase base) t.
Proof.
  induction fuel as [| fuel IH]; intros h sim0 now w; cbn [stepLoop].
  - destruct (sim0 <? now)%float; exists []; cbn;
      rewrite app_nil_r; split; auto.
  - destruct (sim0 <? now)%float;
      [| exists []; cbn; rewrite app_nil_r; split; auto].
    set (w1 := frame h sim0 (realtime ubase base sim0) w).
    set (w2 := set_sim (set_simTime (sim0 + h)%float (sim w1)) w1).
    set (h2 := if (sim0 + h <? now)%float then hz (sim w2) else h).
    change (exists t,
               trace (world_of (stepLoop fuel ubase base h2 (sim0 + h)%float
                                         (fst (Now w2)) (snd (Now w2))))
               = trace w ++ t /\ Forall (stamped_at ubase base) t).
    destruct (IH h2 (sim0 + h)%float (fst (Now w2)) (snd (Now w2)))
      as (t & Ht & Hs).
    destruct (frame_log h sim0 (realtime ubase base sim0) w) as [Hf _].
    fold w1 in Hf.
    eexists. rewrite Ht. change (trace (snd (Now w2))) with (trace w1).
    rewrite Hf, <- !app_assoc. split; [reflexivity |].
    apply Forall_app. split; [apply stamped_sent_events |].
    apply Forall_app. split; [apply stamped_hook_events | exact Hs].
Qed.

Lemma runSim_stable (fuel : nat) ubase stop (w : World) :
  stable w (world_of (runSim fuel ubase stop w)).
Proof.
  unfold runSim. destruct (fired w stop); [apply stable_refl |].
  pose proof (stepping_no_render fuel ubase w) as (St & _).
  destruct (stepping fuel ubase w) as [[h now] w1 | w1]; cbn [world_of] in *;
    [| exact St].
  eapply stable_trans; [exact St | apply stable_renderGate].
Qed.

Lemma runSim_stamped (fuel : nat) (ubase : Z) (stop : chan) (w : World) :
  exists t,
    trace (world_of (runSim fuel ubase stop w)) = trace w ++ t /\
    Forall (stamped_at ubase (baseTime (sim w))) t.
Proof.
  unfold runSim. destruct (fired w stop).
  - exists []. cbn. rewrite app_nil_r. split; auto.
  - rewrite stepping_unfold.
    pose proof (kept_baseTime _ _ (kept_preframed ubase w)) as Hb.
    cbn [sim baseTime] in Hb. rewrite Hb.
    destruct (stepLoop_stamped fuel ubase (baseTime (sim w)) (hz (sim w))
                (simTime (sim w)) (reading w (reads w)) (preframed ubase w))
      as (t & Ht & Hs).
    rewrite trace_preframed in Ht.
    destruct (stepLoop fuel ubase (baseTime (sim w)) (hz (sim w))
                (simTime (sim w)) (reading w (reads w)) (preframed ubase w))
      as [[h now] w1 | w1]; cbn [world_of] in *.
    + destruct (renderGate_trace ubase (baseTime (sim w)) h now w1) as [Hg | Hg];
        rewrite Hg, Ht, <- !app_assoc; eexists; (split; [reflexivity |]).
      * apply Forall_app. split; [apply stamped_hook_events | exact Hs].
      * apply Forall_app. split; [apply stamped_hook_events |].
        apply Forall_app. split; [exact Hs | apply stamped_hook_events].
    + rewrite Ht, <- app_assoc. eexists. split; [reflexivity |].
      apply Forall_app. split; [apply stamped_hook_events | exact Hs].
Qed.

Lemma runLoop_stamped (fuel : nat) (ubase : Z) (stop : chan)
  (rounds : list (list Act)) :
  forall w,
    stable w (world_of (runLoop fuel ubase stop rounds w)) /\
    exists t,
      trace (world_of (runLoop fuel ubase stop rounds w)) = trace w ++ t /\
      Forall (stamped_at ubase (baseTime (sim w))) t.
Proof.
  induction rounds as [| acts rounds IH]; intros w; cbn [runLoop].
  - split; [apply stable_refl |]. exists []. cbn. rewrite app_nil_r. auto.
  - destruct (others_quiet acts w) as (St & Ht & _).
    pose proof (runSim_stable fuel ubase stop (others acts w)) as St1.
    destruct (runSim_stamped fuel ubase stop (others acts w)) as (t & Ht1 & Hs1).
    rewrite Ht, (stable_baseTime _ _ St) in *.
    assert (St2 : stable w (world_of (runSim fuel ubase stop (others acts w))))
      by (eapply stable_trans; eassumption).
    destruct (runSim fuel ubase stop (others acts w)) as [[err |] w1 | w1];
      cbn [world_of] in *; try (split; [exact St2 | eauto]; fail).
    destruct (IH w1) as (St3 & t2 & Ht2 & Hs2).
    split; [eapply stable_trans; eassumption |].
    exists (t ++ t2). rewrite Ht2, Ht1, <- app_assoc. split; [reflexivity |].
    apply Forall_app. split; [exact Hs1 |].
    rewrite (stable_baseTime _ _ St2) in Hs2. exact Hs2.
Qed.

(** X8. Every callback of a run is given the calendar time of its own
    frame time: for each invocation that [Run] logs, hook or op, the
    [when] argument is what [s.Time()] returns when the simulation time
    is the invocation's [frameTime], with [runTime] the Unix time at which
    [Run] was called and [baseTime] the first reading of the timer. *)
Theorem callbacks_get_the_time_of_their_frame (fuel : nat)
  (rounds : list (list Act)) (w : World) :
  let w' := world_of (Run fuel rounds w) in
  runTime (sim w') = unix_now w /\
  baseTime (sim w') = clock w (reads w) /\
  exists t, trace w' = trace w ++ t /\ Forall (stamped (sim w')) t.
Proof.
  intros w'. subst w'. rewrite Run_unfold.
  destruct (runLoop_stamped fuel (unix_now w) (stopped (sim w)) rounds
              (started w)) as (St & t & Ht & Hs).
  rewrite (stable_runTime _ _ St), (stable_baseTime _ _ St).
  split; [reflexivity |]. split; [reflexivity |].
  exists t. split; [exact Ht |].
  eapply Forall_impl; [| exact Hs].
  intros e He. destruct e; cbn in *; auto.
  unfold Sim_Time. cbn.
  rewrite (stable_runTime _ _ St), (stable_baseTime _ _ St). exact He.
Qed.

(** ** A rate of zero *)

(** Adding positive infinity to any number other than negative infinity
    gives positive infinity. *)
Lemma add_infinity (x : float64) :
  (neg_infinity <? x)%float = true -> (x + infinity)%float = infinity.
Proof.
  intros Hx. rewrite ltb_spec in Hx.
  rewrite <- (SF2Prim_Prim2SF (x + infinity)%float), add_spec.
  destruct (Prim2SF x) as [s | s | | s m e]; try destruct s;
    try discriminate Hx; reflexivity.
Qed.

Lemma stepLoop_at_infinity (fuel : nat) ubase base h now (w : World) :
  stepLoop fuel ubase base h infinity now w = Returned (h, now) w.
Proof.
  destruct fuel; cbn [stepLoop]; rewrite ltb_infinity; reflexivity.
Qed.

(** An iteration that finds the simulation not behind the timer. *)
Lemma runSim_not_behind (fuel : nat) ubase stop (w : World) :
  fired w stop = false ->
  (simTime (sim w) <? reading w (reads w))%float = false ->
  exists w',
    runSim fuel ubase stop w = Returned None w' /\
    simTime (sim w') = simTime (sim w) /\
    sendq w' = sendq w /\
    receipts (trace w') = receipts (trace w) /\
    invocations HFrame (trace w') = invocations HFrame (trace w).
Proof.
  intros Hstop Hlt. rewrite runSim_unfold by exact Hstop.
  rewrite stepping_unfold.
  pose proof (kept_preframed ubase w) as K.
  pose proof (trace_preframed ubase w) as Hpre.
  destruct (renderGate_keeps ubase (baseTime (sim w)) (hz (sim w))
              (reading w (reads w)) (preframed ubase w))
    as (Hs & _ & Hq & _ & _ & Hi).
  assert (Hrec : receipts (trace (renderGate ubase (baseTime (sim w)) (hz (sim w))
                                    (reading w (reads w)) (preframed ubase w)))
                 = receipts (trace w)).
  { destruct (renderGate_trace ubase (baseTime (sim w)) (hz (sim w))
                (reading w (reads w)) (preframed ubase w)) as [Hg | Hg];
      rewrite Hg, Hpre, ?receipts_app, ?receipts_hook_events, ?app_nil_r;
      reflexivity. }
  destruct fuel as [| fuel]; cbn [stepLoop]; rewrite Hlt;
    (eexists; split; [reflexivity |]);
    rewrite Hs, Hq, Hrec, Hi by reflexivity;
    rewrite Hpre, invocations_app, invocations_hook_events by reflexivity;
    rewrite app_nil_r;
    repeat split;
    try apply (kept_simTime _ _ K); apply (kept_sendq _ _ K).
Qed.

Lemma runSim_at_infinity (fuel : nat) ubase stop (w : World) :
  simTime (sim w) = infinity ->
  simTime (sim (world_of (runSim fuel ubase stop w))) = infinity /\
  receipts (trace (world_of (runSim fuel ubase stop w))) = receipts (trace w) /\
  invocations HFrame (trace (world_of (runSim fuel ubase stop w)))
  = invocations HFrame (trace w) /\
  (fired w stop = false ->
   sendq (world_of (runSim fuel ubase stop w)) = sendq w /\
   exists w', runSim fuel ubase stop w = Returned None w').
Proof.
  intros Hinf. destruct (fired w stop) eqn:Hstop.
  - unfold runSim. rewrite Hstop. cbn. repeat split; auto. discriminate.
  - assert (Hlt : (simTime (sim w) <? reading w (reads w))%float = false)
      by (rewrite Hinf; apply ltb_infinity).
    destruct (runSim_not_behind fuel ubase stop w Hstop Hlt)
      as (w' & Hrun & Hs & Hq & Hr & Hi).
    rewrite Hrun. cbn [world_of]. rewrite Hs.
    repeat split; eauto.
Qed.

(** X9. Infinite simulation time is a dead end. Once [simTime] is
    positive infinity, as it is after an increment with the step of a
    zero rate, no later iteration of the loop makes an increment: the
    [Frame] hook is never invoked again and no op is ever received again,
    whatever the timer reads and whatever other goroutines do, while
    [simTime] stays infinite. *)
Theorem infinite_time_is_a_dead_end (fuel : nat) (ubase : Z) (stop : chan)
  (rounds : list (list Act)) (w : World) :
  simTime (sim w) = infinity ->
  let w' := world_of (runLoop fuel ubase stop rounds w) in
  simTime (sim w') = infinity /\
  receipts (trace w') = receipts (trace w) /\
  invocations HFrame (trace w') = invocations HFrame (trace w).
Proof.
  revert w. induction rounds as [| acts rounds IH]; intros w Hinf;
    cbn [runLoop world_of]; [auto |].
  destruct (others_quiet acts w) as (_ & Ht & _).
  destruct (others_timer acts w) as [_ Hs].
  assert (Hinf1 : simTime (sim (others acts w)) = infinity) by congruence.
  destruct (runSim_at_infinity fuel ubase stop (others acts w) Hinf1)
    as (H1 & H2 & H3 & _).
  rewrite Ht in H2, H3.
  destruct (runSim fuel ubase stop (others acts w)) as [[err |] w1 | w1];
    cbn [world_of] in *; auto.
  destruct (IH w1 H1) as (H4 & H5 & H6). cbn zeta in *.
  rewrite H4, H5, H6. auto.
Qed.

(** X10. A step rate of zero ends the simulation. With [hz] positive
    infinity, which is what [SetFPS(0)] stores, an iteration that finds
    the simulation behind the timer makes exactly one increment: it
    invokes the [Frame] hook once, with the step infinity, and returns
    with [simTime] positive infinity. *)
Theorem zero_rate_steps_to_infinity (fuel : nat) (ubase : Z) (stop : chan)
  (w : World) (f : Op) :
  fired w stop = false ->
  hz (sim w) = infinity ->
  (neg_infinity <? simTime (sim w))%float = true ->
  (simTime (sim w) <? reading w (reads w))%float = true ->
  Frame (sim w) = Some f ->
  exists w',
    runSim (S fuel) ubase stop w = Returned None w' /\
    simTime (sim w') = infinity /\
    invocations HFrame (trace w') =
    invocations HFrame (trace w)
      ++ [(infinity, simTime (sim w),
           realtime ubase (baseTime (sim w)) (simTime (sim w)))].
Proof.
  intros Hstop Hhz Hfin Hlt Hf.
  rewrite runSim_unfold by exact Hstop. rewrite stepping_unfold.
  pose proof (kept_preframed ubase w) as K.
  pose proof (trace_preframed ubase w) as Hpre.
  cbn [stepLoop]. rewrite Hlt, Hhz, (add_infinity _ Hfin).
  set (w0 := preframed ubase w) in *.
  set (rt := realtime ubase (baseTime (sim w0)) (simTime (sim w))).
  set (w1 := frame infinity (simTime (sim w)) rt w0).
  set (w2 := set_sim (set_simTime infinity (sim w1)) w1).
  set (h2 := if (infinity <? reading w (reads w))%float then hz (sim w2)
             else infinity).
  change (exists w',
             match stepLoop fuel ubase (baseTime (sim w0)) h2 infinity
                            (fst (Now w2)) (snd (Now w2)) with
             | Returned (h, now) w'0 =>
                 Returned (None : error)
                          (renderGate ubase (baseTime (sim w)) h now w'0)
             | Running w'0 => Running w'0
             end = Returned None w' /\
             simTime (sim w') = infinity /\
             invocations HFrame (trace w') =
             invocations HFrame (trace w)
               ++ [(infinity, simTime (sim w),
                    realtime ubase (baseTime (sim w)) (simTime (sim w)))]).
  rewrite stepLoop_at_infinity.
  eexists. split; [reflexivity |].
  destruct (renderGate_keeps ubase (baseTime (sim w)) h2 (fst (Now w2))
              (snd (Now w2))) as (Hs & _ & _ & _ & _ & Hi).
  rewrite Hs, Hi by reflexivity.
  split; [reflexivity |].
  change (trace (snd (Now w2))) with (trace w1).
  unfold w1. rewrite invocations_frame by reflexivity.
  rewrite (kept_Frame _ _ K). cbn [sim Frame]. rewrite Hf, Hpre.
  rewrite invocations_app, invocations_hook_events by reflexivity.
  rewrite app_nil_r. unfold rt. rewrite (kept_baseTime _ _ K).
  cbn [hook_events]. rewrite invocations_Do_events. reflexivity.
Qed.

(** ** Simulation time is the sum of the steps *)

Lemma chain_app s l1 s1 l2 s2 :
  chain s l1 s1 -> chain s1 l2 s2 -> chain s (l1 ++ l2) s2.
Proof.
  revert s. induction l1 as [| [[h ft] rt] l1 IH]; intros s; cbn.
  - intros ->. auto.
  - intros [-> Hc] H2. split; [reflexivity | eapply IH; eassumption].
Qed.

Lemma stepLoop_chain (fuel : nat) (ubase : Z) (base : float64) (f : Op) :
  forall (h sim0 now : float64) (w : World),
    Frame (sim w) = Some f ->
    simTime (sim w) = sim0 ->
    exists l,
      invocations HFrame (trace (world_of (stepLoop fuel ubase base h sim0 now w)))
      = invocations HFrame (trace w) ++ l /\
      chain sim0 l (simTime (sim (world_of (stepLoop fuel ubase base h sim0 now w)))).
Proof.
  induction fuel as [| fuel IH]; intros h sim0 now w Hf Hs; cbn [stepLoop].
  - destruct (sim0 <? now)%float; exists []; cbn; rewrite app_nil_r; auto.
  - destruct (sim0 <? now)%float;
      [| exists []; cbn; rewrite app_nil_r; auto].
    set (rt := realtime ubase base sim0).
    set (w1 := frame h sim0 rt w).
    pose proof (kept_frame h sim0 rt w) as K. fold w1 in K.
    pose proof (invocations_frame HFrame h sim0 rt w eq_refl) as Hi.
    fold w1 in Hi. rewrite Hf in Hi. cbn [hook_events] in Hi.
    rewrite invocations_Do_events in Hi. cbn in Hi.
    set (w2 := set_sim (set_simTime (sim0 + h)%float (sim w1)) w1).
    set (h2 := if (sim0 + h <? now)%float then hz (sim w2) else h).
    change (exists l,
               invocations HFrame
                 (trace (world_of (stepLoop fuel ubase base h2 (sim0 + h)%float
                                            (fst (Now w2)) (snd (Now w2)))))
               = invocations HFrame (trace w) ++ l /\
               chain sim0 l
                 (simTime (sim (world_of (stepLoop fuel ubase base h2
                                            (sim0 + h)%float (fst (Now w2))
                                            (snd (Now w2))))))).
    destruct (IH h2 (sim0 + h)%float (fst (Now w2)) (snd (Now w2)))
      as (l & Hl & Hc).
    + change (Frame (sim w1) = Some f).
      rewrite (kept_Frame _ _ K). exact Hf.
    + reflexivity.
    + exists ((h, sim0, rt) :: l). rewrite Hl.
      change (trace (snd (Now w2))) with (trace w1).
      rewrite Hi, <- app_assoc. cbn. auto.
Qed.

Lemma runSim_chain (fuel : nat) ubase stop (f : Op) (w : World) :
  Frame (sim w) = Some f ->
  exists l,
    invocations HFrame (trace (world_of (runSim fuel ubase stop w)))
    = invocations HFrame (trace w) ++ l /\
    chain (simTime (sim w)) l (simTime (sim (world_of (runSim fuel ubase stop w)))).
Proof.
  intros Hf. unfold runSim. destruct (fired w stop).
  - exists []. cbn. rewrite app_nil_r. auto.
  - rewrite stepping_unfold.
    pose proof (kept_preframed ubase w) as K.
    destruct (stepLoop_chain fuel ubase (baseTime (sim (preframed ubase w))) f
                (hz (sim w)) (simTime (sim w)) (reading w (reads w))
                (preframed ubase w)) as (l & Hl & Hc).
    + rewrite (kept_Frame _ _ K). exact Hf.
    + apply (kept_simTime _ _ K).
    + rewrite trace_preframed, invocations_app in Hl.
      rewrite invocations_hook_events, app_nil_r in Hl by reflexivity.
      exists l.
      destruct (stepLoop fuel ubase (baseTime (sim (preframed ubase w)))
                  (hz (sim w)) (simTime (sim w)) (reading w (reads w))
                  (preframed ubase w)) as [[h now] w1 | w1];
        cbn [world_of] in *; [| auto].
      destruct (renderGate_keeps ubase (baseTime (sim w)) h now w1)
        as (Hs & _ & _ & _ & _ & Hi).
      rewrite Hs, Hi by reflexivity. auto.
Qed.

Lemma runLoop_chain (fuel : nat) ubase stop (f : Op) (rounds : list (list Act)) :
  forall w,
    Frame (sim w) = Some f ->
    exists l,
      invocations HFrame (trace (world_of (runLoop fuel ubase stop rounds w)))
      = invocations HFrame (trace w) ++ l /\
      chain (simTime (sim w)) l
            (simTime (sim (world_of (runLoop fuel ubase stop rounds w)))).
Proof.
  induction rounds as [| acts rounds IH]; intros w Hf; cbn [runLoop].
  - exists []. cbn. rewrite app_nil_r. auto.
  - destruct (others_quiet acts w) as (St & Ht & _).
    destruct (others_timer acts w) as [_ Hs].
    assert (Hf1 : Frame (sim (others acts w)) = Some f)
      by (rewrite (stable_Frame _ _ St); exact Hf).
    destruct (runSim_chain fuel ubase stop f (others acts w) Hf1)
      as (l & Hl & Hc).
    pose proof (runSim_stable fuel ubase stop (others acts w)) as St1.
    rewrite Ht, Hs in *.
    destruct (runSim fuel ubase stop (others acts w)) as [[err |] w1 | w1];
      cbn [world_of] in *; try (exists l; auto; fail).
    destruct (IH w1) as (l2 & Hl2 & Hc2).
    + rewrite (stable_Frame _ _ St1). exact Hf1.
    + exists (l ++ l2). rewrite Hl2, Hl, <- app_assoc.
      split; [reflexivity | eapply chain_app; eassumption].
Qed.

(** X11. Simulation time is the sum of the steps handed to the [Frame]
    hook. Over a whole run, with any changes of rate on the way, the
    invocations of the hook form one chain that starts at 0: each has the
    simulation time reached so far as its frame time, the next frame time
    is that plus its step, in [float64] arithmetic, and [simTime] at any
    point of the run is the end of the chain. *)
Theorem simTime_is_the_sum_of_the_steps (fuel : nat) (rounds : list (list Act))
  (w : World) (f : Op) :
  Frame (sim w) = Some f ->
  exists l,
    invocations HFrame (trace (world_of (Run fuel rounds w)))
    = invocations HFrame (trace w) ++ l /\
    chain 0%float l (simTime (sim (world_of (Run fuel rounds w)))).
Proof.
  intros Hf. rewrite Run_unfold.
  apply (runLoop_chain fuel (unix_now w) (stopped (sim w)) f rounds (started w)).
  exact Hf.
Qed.

(** ** The properties at work *)

Lemma rate_ok_demo_sim : rate_ok (demo_sim 0).
Proof.
  split; [cbn; lia |]. split; [reflexivity | cbn; lia].
Qed.

Lemma rates_agree_throughout_witness :
  rate_ok (sim (world_of (Run 4 [[ActSched set_rate_op]; []]
                            (others [ActCall (CallSetRenderFPS 5)]
                               (world_at (demo_sim 0)
                                  [0; 0.25; 0.375; 1; 1]%float))))).
Proof.
  apply (proj2 rates_agree_throughout [ActCall (CallSetRenderFPS 5)] 4%nat
               [[ActSched set_rate_op]; []]
               (world_at (demo_sim 0) [0; 0.25; 0.375; 1; 1]%float)).
  exact rate_ok_demo_sim.
Defined.

Lemma rate_ok_sim_2_30 : rate_ok sim_2_30.
Proof.
  split; [cbn; lia |]. split; [reflexivity | intros _; reflexivity].
Qed.

Lemma SetFPS_restore_witness :
  fst (SetFPS 4 sim_2_30) = (fps sim_2_30, None) /\
  SetFPS (fps sim_2_30) (snd (SetFPS 4 sim_2_30)) = ((4, None), sim_2_30).
Proof.
  apply (SetFPS_restore 4 sim_2_30); [exact rate_ok_sim_2_30 | lia].
Defined.

Lemma SetRenderFPS_restore_witness :
  fst (SetRenderFPS 5 sim_2_30) = rfps sim_2_30 /\
  SetRenderFPS (rfps sim_2_30) (snd (SetRenderFPS 5 sim_2_30)) = (5, sim_2_30).
Proof.
  apply (SetRenderFPS_restore 5 sim_2_30). reflexivity.
Defined.

Lemma iteration_log_witness :
  exists mid last,
    trace (world_of (runSim 4 1000 (chan_ref 0) half_step)) =
    trace half_step
      ++ hook_events HPreFrame (PreFrame (sim half_step)) (hz (sim half_step))
           (simTime (sim half_step))
           (realtime 1000 (baseTime (sim half_step)) (simTime (sim half_step)))
      ++ mid ++ last /\
    invocations HPreFrame mid = [] /\
    invocations HRender mid = [] /\
    (last = [] \/
     exists h now,
       last = hook_events HRender (Render (sim half_step)) h now
                (realtime 1000 (baseTime (sim half_step)) now)).
Proof.
  apply (iteration_log 4 1000 (chan_ref 0) half_step). reflexivity.
Defined.


Lemma ops_served_in_order_witness :
  StronglySorted lt
    (receipts
       (trace (world_of (Run 4 [[ActSched set_rate_op; ActSync idle]; []]
                            (world_at (demo_sim 0)
                               [0; 0.25; 0.375; 1; 1]%float))))).
Proof.
  apply (ops_served_in_order 4 [[ActSched set_rate_op; ActSync idle]; []]
           (world_at (demo_sim 0) [0; 0.25; 0.375; 1; 1]%float)).
  - reflexivity.
  - constructor.
  - constructor.
Defined.

(** The two ops of [two_ops_run] are received in the first increment, the
    [Sched] before the [Sync]. *)
Example two_ops_receipts : receipts (trace (world_of two_ops_run)) = [0; 1]%nat.
Proof. vm_compute. reflexivity. Qed.

Lemma stop_is_final_witness :
  exists w',
    runLoop 4 1000 (chan_ref 0) [[ActSched set_rate_op]; []]
            (close_chan 0 half_step)
    = Returned (Some ErrStopped) w' /\
    trace w' = trace (close_chan 0 half_step) /\
    reads w' = reads (close_chan 0 half_step) /\
    simTime (sim w') = simTime (sim (close_chan 0 half_step)).
Proof.
  apply (stop_is_final 4 1000 (chan_ref 0) [ActSched set_rate_op] [[]]
           (close_chan 0 half_step)).
  reflexivity.
Defined.

Lemma infinite_time_is_a_dead_end_witness :
  let w' := world_of (runLoop 4 1000 (chan_ref 0)
                        [[ActSched set_rate_op]; [ActCall (CallSetFPS 2)]; []]
                        frozen_world) in
  simTime (sim w') = infinity /\
  receipts (trace w') = receipts (trace frozen_world) /\
  invocations HFrame (trace w') = invocations HFrame (trace frozen_world).
Proof.
  apply (infinite_time_is_a_dead_end 4 1000 (chan_ref 0)
           [[ActSched set_rate_op]; [ActCall (CallSetFPS 2)]; []] frozen_world).
  vm_compute. reflexivity.
Defined.

Lemma zero_rate_steps_to_infinity_witness :
  exists w',
    runSim 4 1000 (chan_ref 0) zero_rate_world = Returned None w' /\
    simTime (sim w') = infinity /\
    invocations HFrame (trace w') =
    invocations HFrame (trace zero_rate_world)
      ++ [(infinity, simTime (sim zero_rate_world),
           realtime 1000 (baseTime (sim zero_rate_world))
                    (simTime (sim zero_rate_world)))].
Proof.
  apply (zero_rate_steps_to_infinity 3 1000 (chan_ref 0) zero_rate_world idle);
    reflexivity.
Defined.

Lemma simTime_is_the_sum_of_the_steps_witness :
  exists l,
    invocations HFrame (trace (world_of two_ops_run))
    = invocations HFrame
        (trace (world_at (demo_sim 0) [0; 0.25; 0.375; 1; 1]%float)) ++ l /\
    chain 0%float l (simTime (sim (world_of two_ops_run))).
Proof.
  apply (simTime_is_the_sum_of_the_steps 4
           [[ActSched set_rate_op; ActSync idle]; []]
           (world_at (demo_sim 0) [0; 0.25; 0.375; 1; 1]%float) idle).
  reflexivity.
Defined.

(** In [two_ops_run] the first op sets the rate to 4 in the first
    increment, and the second iteration steps by 0.25 from 0.5 to 1. *)
Example two_ops_frames :
  map (fun i => (fst (fst i), snd (fst i)))
      (invocations HFrame (trace (world_of two_ops_run)))
  = [(0.5, 0); (0.25, 0.5); (0.25, 0.75)]%float.
Proof. vm_compute. reflexivity. Qed.

(** * The related revision *)

Module LegacyFacts.
Import Legacy.

Lemma legacy_fixed_refl (w : World) : fixed w w.
Proof. constructor; reflexivity. Qed.

Lemma legacy_fixed_trans (a b c : World) : fixed a b -> fixed b c -> fixed a c.
Proof. intros [] []. constructor; congruence. Qed.

(** A callback changes nothing but the closed channels and the log. *)
Lemma legacy_do_closes (cs : list nat) :
  forall w,
    sim (do_closes cs w) = sim w /\ clock (do_closes cs w) = clock w /\
    reads (do_closes cs w) = reads w /\ sendq (do_closes cs w) = sendq w /\
    next_go (do_closes cs w) = next_go w /\
    unix_now (do_closes cs w) = unix_now w /\
    trace (do_closes cs w) = trace w ++ map EvClose cs.
Proof.
  induction cs as [| c cs IH]; intros w; cbn.
  - rewrite app_nil_r. repeat split.
  - destruct (IH (close_chan c (log (EvClose c) w)))
      as (H1 & H2 & H3 & H4 & H5 & H6 & H7).
    unfold do_closes in *. rewrite H1, H2, H3, H4, H5, H6, H7. cbn.
    rewrite <- app_assoc. repeat split.
Qed.

Lemma legacy_Do hk op ft rt (w : World) :
  sim (Do hk op ft rt w) = sim w /\ clock (Do hk op ft rt w) = clock w /\
  reads (Do hk op ft rt w) = reads w /\ sendq (Do hk op ft rt w) = sendq w /\
  next_go (Do hk op ft rt w) = next_go w /\
  unix_now (Do hk op ft rt w) = unix_now w /\
  trace (Do hk op ft rt w) = trace w ++ Do_events hk op ft rt.
Proof.
  unfold Do, Do_events.
  destruct (legacy_do_closes (op ft rt) (log (EvDo hk ft rt) w))
    as (H1 & H2 & H3 & H4 & H5 & H6 & H7).
  rewrite H1, H2, H3, H4, H5, H6, H7. cbn. rewrite <- app_assoc. repeat split.
Qed.

Lemma legacy_Do_sent x ft rt (w : World) :
  sim (Do_sent x ft rt w) = sim w /\ clock (Do_sent x ft rt w) = clock w /\
  reads (Do_sent x ft rt w) = reads w /\ sendq (Do_sent x ft rt w) = sendq w /\
  next_go (Do_sent x ft rt w) = next_go w /\
  unix_now (Do_sent x ft rt w) = unix_now w /\
  trace (Do_sent x ft rt w) =
  trace w ++ Do_events (HOp (snd_id x)) (snd_op x) ft rt
    ++ (if snd_sync x then [EvDone (snd_id x)] else []).
Proof.
  unfold Do_sent.
  destruct (legacy_Do (HOp (snd_id x)) (snd_op x) ft rt w)
    as (H1 & H2 & H3 & H4 & H5 & H6 & H7).
  destruct (snd_sync x); cbn; rewrite H1, H2, H3, H4, H5, H6, H7;
    rewrite ?app_nil_r, <- ?app_assoc; repeat split.
Qed.

Lemma legacy_runOp hk op ft rt (w : World) :
  sim (runOp hk op ft rt w) = sim w /\ clock (runOp hk op ft rt w) = clock w /\
  reads (runOp hk op ft rt w) = reads w /\
  sendq (runOp hk op ft rt w) = sendq w /\
  next_go (runOp hk op ft rt w) = next_go w /\
  unix_now (runOp hk op ft rt w) = unix_now w /\
  trace (runOp hk op ft rt w) = trace w ++ hook_events hk op ft rt.
Proof.
  destruct op as [f |]; cbn [runOp hook_events]; [apply legacy_Do |].
  rewrite app_nil_r. repeat split.
Qed.

Lemma legacy_recv_None (c : chan) (q : list Sender) :
  recv c q = None -> queued c q = [] /\ unqueued c q = q.
Proof.
  unfold queued, unqueued.
  induction q as [| x q IH]; cbn [recv filter]; [split; reflexivity |].
  destruct (on_chan c x) eqn:Hx; [discriminate |].
  destruct (recv c q) as [[y r] |]; [discriminate |].
  intros _. destruct (IH eq_refl) as [H1 H2]. cbn. rewrite H1, H2.
  split; reflexivity.
Qed.

Lemma legacy_recv_Some (c : chan) (q r : list Sender) (x : Sender) :
  recv c q = Some (x, r) ->
  queued c q = x :: queued c r /\ unqueued c q = unqueued c r.
Proof.
  unfold queued, unqueued.
  revert r. induction q as [| y q IH]; intros r; cbn [recv filter];
    [discriminate |].
  destruct (on_chan c y) eqn:Hy.
  - intros H. injection H as -> ->. cbn. split; reflexivity.
  - destruct (recv c q) as [[z t] |]; [| discriminate].
    intros H. injection H as -> <-.
    destruct (IH t eq_refl) as [H1 H2]. cbn [filter]. rewrite Hy. cbn.
    rewrite H1, H2. split; reflexivity.
Qed.

Lemma legacy_pollLoop (n : nat) (c : chan) (ft : float64) (rt : Time) :
  forall w : World,
    (List.length (queued c (sendq w)) <= n)%nat ->
    let w' := pollLoop n c ft rt w in
    trace w' = trace w ++ flat_map (sent_events ft rt) (queued c (sendq w)) /\
    sendq w' = unqueued c (sendq w) /\
    sim w' = sim w /\ clock w' = clock w /\ reads w' = reads w /\
    next_go w' = next_go w /\ unix_now w' = unix_now w.
Proof.
  induction n as [| n IH]; intros w Hn; cbn [pollLoop].
  - destruct (recv c (sendq w)) as [[x q] |] eqn:Hr.
    + apply legacy_recv_Some in Hr. destruct Hr as [Hq _]. rewrite Hq in Hn.
      cbn in Hn. lia.
    + apply legacy_recv_None in Hr. destruct Hr as [Hq Hu]. rewrite Hq, Hu.
      cbn. rewrite app_nil_r. repeat split.
  - destruct (recv c (sendq w)) as [[x q] |] eqn:Hr.
    + apply legacy_recv_Some in Hr. destruct Hr as [Hq Hu].
      set (w1 := Do_sent x ft rt (log (EvRecv (snd_id x)) (set_sendq q w))).
      destruct (legacy_Do_sent x ft rt (log (EvRecv (snd_id x)) (set_sendq q w)))
        as (H1 & H2 & H3 & H4 & H5 & H6 & H7).
      fold w1 in H1, H2, H3, H4, H5, H6, H7. cbn in H1, H2, H3, H4, H5, H6, H7.
      destruct (IH w1) as (I1 & I2 & I3 & I4 & I5 & I6 & I7).
      { rewrite H4. rewrite Hq in Hn. cbn in Hn. lia. }
      cbn zeta. rewrite I1, I2, I3, I4, I5, I6, I7, H1, H2, H3, H4, H5, H6, H7.
      rewrite Hq, Hu. cbn [flat_map]. unfold sent_events at 2.
      cbn [app]. rewrite <- !app_assoc.
      split; [| repeat split].
      unfold Do_events. cbn [app]. rewrite <- ?app_assoc. reflexivity.
    + apply legacy_recv_None in Hr. destruct Hr as [Hq Hu]. rewrite Hq, Hu.
      cbn. rewrite app_nil_r. repeat split.
Qed.

(** One call of [frame]: the queue of the op channel is drained, oldest
    first, and then the [Frame] hook is invoked. *)
Lemma legacy_frame_log (ft : float64) (rt : Time) (w : World) :
  trace (frame ft rt w) =
  trace w ++ flat_map (sent_events ft rt) (queued (sched (sim w)) (sendq w))
    ++ hook_events HFrame (Frame (sim w)) ft rt /\
  sendq (frame ft rt w) = unqueued (sched (sim w)) (sendq w) /\
  sim (frame ft rt w) = sim w /\ clock (frame ft rt w) = clock w /\
  reads (frame ft rt w) = reads w /\ next_go (frame ft rt w) = next_go w /\
  unix_now (frame ft rt w) = unix_now w.
Proof.
  unfold frame, pollSched.
  destruct (legacy_pollLoop (List.length (sendq w)) (sched (sim w)) ft rt w)
    as (I1 & I2 & I3 & I4 & I5 & I6 & I7).
  { apply filter_length_le. }
  cbn zeta in *.
  set (w1 := pollLoop (List.length (sendq w)) (sched (sim w)) ft rt w) in *.
  destruct (legacy_runOp HFrame (Frame (sim w1)) ft rt w1)
    as (H1 & H2 & H3 & H4 & H5 & H6 & H7).
  rewrite H1, H2, H3, H4, H5, H6, H7, I1, I2, I3, I4, I5, I6, I7.
  rewrite <- app_assoc. repeat split.
Qed.

Lemma legacy_invocations_app (hk : Hook) (a b : list Event) :
  invocations hk (a ++ b) = invocations hk a ++ invocations hk b.
Proof. apply flat_map_app. Qed.

Lemma legacy_invocations_closes (hk : Hook) (cs : list nat) :
  invocations hk (map EvClose cs) = [].
Proof. induction cs as [| c cs IH]; cbn; auto. Qed.

Lemma legacy_invocations_Do_events (hk k : Hook) op ft rt :
  invocations hk (Do_events k op ft rt) =
  if Hook_eqb k hk then [(ft, rt)] else [].
Proof.
  unfold Do_events.
  change (invocations hk (EvDo k ft rt :: map EvClose (op ft rt)))
    with ((if Hook_eqb k hk then [(ft, rt)] else [])
            ++ invocations hk (map EvClose (op ft rt))).
  rewrite legacy_invocations_closes, app_nil_r. reflexivity.
Qed.

Lemma legacy_invocations_hook_events (hk k : Hook) op ft rt :
  invocations hk (hook_events k op ft rt) =
  match op with
  | Some _ => if Hook_eqb k hk then [(ft, rt)] else []
  | None => []
  end.
Proof.
  destruct op; cbn [hook_events];
    [apply legacy_invocations_Do_events | reflexivity].
Qed.

Lemma legacy_invocations_sent_events (hk : Hook) ft rt (q : list Sender) :
  is_hook hk = true -> invocations hk (flat_map (sent_events ft rt) q) = [].
Proof.
  intros Hk. induction q as [| x q IH]; [reflexivity |].
  change (invocations hk (sent_events ft rt x ++ flat_map (sent_events ft rt) q)
          = []).
  rewrite legacy_invocations_app, IH, app_nil_r. unfold sent_events.
  change (invocations hk
            (Do_events (HOp (snd_id x)) (snd_op x) ft rt
               ++ (if snd_sync x then [EvDone (snd_id x)] else [])) = []).
  rewrite legacy_invocations_app, legacy_invocations_Do_events.
  destruct hk; try discriminate; destruct (snd_sync x); reflexivity.
Qed.

(** What the catch-up loop leaves alone. *)
Lemma legacy_stepLoop_keeps (fuel : nat) (ubase : Z) (base : float64) :
  forall (h sim0 t : float64) (w : World),
    let w' := world_of (stepLoop fuel ubase base h sim0 t w) in
    fixed w w' /\ reads w' = reads w /\
    renderTime (sim w') = renderTime (sim w) /\
    next_go w' = next_go w /\
    (forall hk, is_hook hk = true -> Hook_eqb HFrame hk = false ->
                invocations hk (trace w') = invocations hk (trace w)) /\
    exists l, trace w' = trace w ++ l.
Proof.
  induction fuel as [| fuel IH]; intros h sim0 t w; cbn [stepLoop].
  - destruct (sim0 + h <=? t)%float; cbn [world_of];
      (split; [apply legacy_fixed_refl |]); repeat split; auto;
      exists []; symmetry; apply app_nil_r.
  - destruct (sim0 + h <=? t)%float; cbn [world_of];
      [| (split; [apply legacy_fixed_refl |]); repeat split; auto;
         exists []; symmetry; apply app_nil_r].
    set (rt := realtime ubase base sim0).
    destruct (legacy_frame_log sim0 rt w) as (F1 & F2 & F3 & F4 & F5 & F6 & F7).
    set (w1 := frame sim0 rt w) in *.
    set (w2 := set_sim (set_simTime (sim0 + h)%float (sim w1)) w1).
    destruct (IH h (sim0 + h)%float t w2) as (I1 & I2 & I3 & I4 & I5 & l & I6).
    cbn zeta in *.
    set (w3 := world_of (stepLoop fuel ubase base h (sim0 + h)%float t w2)) in *.
    assert (Hw2 : fixed w w2)
      by (unfold w2; constructor; cbn; rewrite ?F3, ?F4, ?F7; reflexivity).
    split; [eapply legacy_fixed_trans; eassumption |].
    split; [rewrite I2; cbn; exact F5 |].
    split; [rewrite I3; cbn; rewrite F3; reflexivity |].
    split; [rewrite I4; cbn; exact F6 |].
    split.
    + intros hk H1 H2. rewrite (I5 hk H1 H2).
      change (trace w2) with (trace w1).
      rewrite F1, !legacy_invocations_app.
      rewrite legacy_invocations_sent_events by exact H1.
      rewrite legacy_invocations_hook_events, H2.
      destruct (Frame (sim w)); rewrite !app_nil_r; reflexivity.
    + eexists. rewrite I6. change (trace w2) with (trace w1).
      rewrite F1, <- !app_assoc. reflexivity.
Qed.

(** The passes of the catch-up loop when it returns. *)
Lemma legacy_stepLoop_returned (fuel : nat) (ubase : Z) (base : float64) (f : Op) :
  forall (h sim0 t : float64) (w : World) s1 w',
    Frame (sim w) = Some f ->
    simTime (sim w) = sim0 ->
    stepLoop fuel ubase base h sim0 t w = Returned s1 w' ->
    exists l,
      invocations HFrame (trace w') = invocations HFrame (trace w) ++ l /\
      full_steps (realtime ubase base) h t sim0 l s1 /\
      simTime (sim w') = s1.
Proof.
  induction fuel as [| fuel IH]; intros h sim0 t w s1 w' Hf Hs; cbn [stepLoop].
  - destruct (sim0 + h <=? t)%float eqn:Hle; [discriminate |].
    intros H. injection H as <- <-. exists []. cbn. rewrite app_nil_r. auto.
  - destruct (sim0 + h <=? t)%float eqn:Hle.
    + set (rt := realtime ubase base sim0).
      destruct (legacy_frame_log sim0 rt w) as (F1 & _ & F3 & _).
      set (w1 := frame sim0 rt w) in *.
      set (w2 := set_sim (set_simTime (sim0 + h)%float (sim w1)) w1).
      intros Hrun. apply (IH h (sim0 + h)%float t w2) in Hrun.
      * destruct Hrun as (l & Hl & Hc & Hs1).
        exists ((sim0, rt) :: l). rewrite Hl.
        change (trace w2) with (trace w1).
        rewrite F1, !legacy_invocations_app.
        rewrite legacy_invocations_sent_events by reflexivity.
        rewrite legacy_invocations_hook_events, Hf. cbn [Hook_eqb app].
        rewrite <- app_assoc. cbn. repeat split; auto.
      * cbn. rewrite F3. exact Hf.
      * reflexivity.
    + intros H. injection H as <- <-. exists []. cbn. rewrite app_nil_r. auto.
Qed.

(** The passes of the catch-up loop, as far as it got. *)
Lemma legacy_stepLoop_ladder (fuel : nat) (ubase : Z) (base : float64) (f : Op) :
  forall (h sim0 t : float64) (w : World),
    Frame (sim w) = Some f ->
    simTime (sim w) = sim0 ->
    exists l,
      invocations HFrame (trace (world_of (stepLoop fuel ubase base h sim0 t w)))
      = invocations HFrame (trace w) ++ l /\
      ladder (realtime ubase base) h sim0 l
             (simTime (sim (world_of (stepLoop fuel ubase base h sim0 t w)))).
Proof.
  induction fuel as [| fuel IH]; intros h sim0 t w Hf Hs; cbn [stepLoop].
  - destruct (sim0 + h <=? t)%float; exists []; cbn; rewrite app_nil_r; auto.
  - destruct (sim0 + h <=? t)%float;
      [| exists []; cbn; rewrite app_nil_r; auto].
    set (rt := realtime ubase base sim0).
    destruct (legacy_frame_log sim0 rt w) as (F1 & _ & F3 & _).
    set (w1 := frame sim0 rt w) in *.
    set (w2 := set_sim (set_simTime (sim0 + h)%float (sim w1)) w1).
    destruct (IH h (sim0 + h)%float t w2) as (l & Hl & Hc).
    + cbn. rewrite F3. exact Hf.
    + reflexivity.
    + exists ((sim0, rt) :: l). rewrite Hl.
      change (trace w2) with (trace w1).
      rewrite F1, !legacy_invocations_app.
      rewrite legacy_invocations_sent_events by reflexivity.
      rewrite legacy_invocations_hook_events, Hf. cbn [Hook_eqb app].
      rewrite <- app_assoc. cbn. repeat split; auto.
Qed.

(** The world in which the catch-up loop of an iteration starts. *)
Lemma legacy_body_unfold (fuel : nat) (ubase : Z) (w : World) :
  exists w0,
    body fuel ubase w =
    match stepLoop fuel ubase (baseTime (sim w)) (hz (sim w)) (simTime (sim w))
                   (clock w (reads w) - baseTime (sim w))%float w0 with
    | Running w1 => Running w1
    | Returned sim1 w1 =>
        Returned tt (renderGate ubase (baseTime (sim w)) sim1 w1)
    end /\
    sim w0 = sim w /\ clock w0 = clock w /\ reads w0 = S (reads w) /\
    sendq w0 = sendq w /\ next_go w0 = next_go w /\
    unix_now w0 = unix_now w /\
    trace w0 = trace w ++ hook_events HPreFrame (PreFrame (sim w))
                            (simTime (sim w))
                            (realtime ubase (baseTime (sim w)) (simTime (sim w))).
Proof.
  unfold body, now, GetTime. cbn [sim].
  set (w0 := runOp HPreFrame (PreFrame (sim w)) (simTime (sim w))
               (realtime ubase (baseTime (sim w)) (simTime (sim w)))
               (mkWorld (sim w) (clock w) (S (reads w)) (unix_now w) (closed w)
                        (sendq w) (next_go w) (trace w))).
  destruct (legacy_runOp HPreFrame (PreFrame (sim w)) (simTime (sim w))
              (realtime ubase (baseTime (sim w)) (simTime (sim w)))
              (mkWorld (sim w) (clock w) (S (reads w)) (unix_now w) (closed w)
                       (sendq w) (next_go w) (trace w)))
    as (H1 & H2 & H3 & H4 & H5 & H6 & H7).
  fold w0 in H1, H2, H3, H4, H5, H6, H7. cbn in H1, H2, H3, H4, H5, H6, H7.
  exists w0. rewrite H1. repeat split; assumption.
Qed.

(** The render gate: at most one invocation of [Render], with the final
    simulation time of the stepping; exactly one when the rate is not
    limited. *)
Lemma legacy_renderGate_log (ubase : Z) (base sim1 : float64) (w : World) :
  let w' := renderGate ubase base sim1 w in
  fixed w w' /\ simTime (sim w') = simTime (sim w) /\
  sendq w' = sendq w /\ next_go w' = next_go w /\
  ((trace w' = trace w /\ 0 < rfps (sim w)) \/
   trace w' = trace w ++ hook_events HRender (Render (sim w)) sim1
                           (realtime ubase base sim1)).
Proof.
  unfold renderGate, now, GetTime. cbn [sim].
  destruct (Z.ltb_spec 0 (rfps (sim w))) as [Hlt | Hle].
  - cbn [renderTime sim].
    destruct (renderTime (sim w) <=? clock w (reads w) - baseTime (sim w))%float.
    + destruct (legacy_runOp HRender (Render (sim w)) sim1
                  (realtime ubase base sim1)
                  (mkWorld (sim w) (clock w) (S (reads w)) (unix_now w)
                           (closed w) (sendq w) (next_go w) (trace w)))
        as (H1 & H2 & H3 & H4 & H5 & H6 & H7).
      cbn in H1, H2, H3, H4, H5, H6, H7. cbn zeta.
      split; [constructor; cbn; rewrite ?H1, ?H2, ?H6; reflexivity |].
      cbn. rewrite H1, H4, H5, H7. auto.
    + cbn. split; [constructor; reflexivity |].
      do 3 (split; [reflexivity |]). left. auto.
  - destruct (legacy_runOp HRender (Render (sim w)) sim1
                (realtime ubase base sim1) w)
      as (H1 & H2 & H3 & H4 & H5 & H6 & H7).
    cbn zeta.
    split; [constructor; rewrite ?H1, ?H2, ?H6; reflexivity |].
    rewrite H1, H4, H5, H7. auto.
Qed.

(** X12. In the related revision an iteration steps only while a whole
    step fits under the reading taken at its top: the invocations of the
    [Frame] hook are the passes of [full_steps], made while
    [sim + hz <= now] with [hz] and [now] fixed for the iteration, and
    when not even one step fits the iteration returns with no invocation
    of the hook, no op received and [simTime] as it was. *)
Theorem legacy_steps_while_a_full_step_fits (fuel : nat) (ubase : Z) (w : World) :
  (forall f w',
      Frame (sim w) = Some f ->
      body fuel ubase w = Returned tt w' ->
      exists l,
        invocations HFrame (trace w') = invocations HFrame (trace w) ++ l /\
        full_steps (realtime ubase (baseTime (sim w))) (hz (sim w))
                   (clock w (reads w) - baseTime (sim w))%float
                   (simTime (sim w)) l (simTime (sim w'))) /\
  ((simTime (sim w) + hz (sim w)
      <=? clock w (reads w) - baseTime (sim w))%float = false ->
   exists w',
     body fuel ubase w = Returned tt w' /\
     invocations HFrame (trace w') = invocations HFrame (trace w) /\
     simTime (sim w') = simTime (sim w) /\
     sendq w' = sendq w).
Proof.
  destruct (legacy_body_unfold fuel ubase w)
    as (w0 & Hb & B1 & B2 & B3 & B4 & B5 & B6 & B7).
  assert (H0 : invocations HFrame (trace w0) = invocations HFrame (trace w)).
  { rewrite B7, legacy_invocations_app, legacy_invocations_hook_events.
    destruct (PreFrame (sim w)); apply app_nil_r. }
  split.
  - intros f w' Hf Hrun. rewrite Hb in Hrun.
    destruct (stepLoop fuel ubase (baseTime (sim w)) (hz (sim w))
                (simTime (sim w)) (clock w (reads w) - baseTime (sim w))%float
                w0) as [s1 w1 |] eqn:Hst; [| discriminate].
    injection Hrun as <-.
    apply (legacy_stepLoop_returned fuel ubase (baseTime (sim w)) f) in Hst;
      [| rewrite B1; exact Hf | rewrite B1; reflexivity].
    destruct Hst as (l & Hl & Hc & Hs).
    destruct (legacy_renderGate_log ubase (baseTime (sim w)) s1 w1)
      as (_ & R2 & _ & _ & R5).
    cbn zeta in *. exists l. rewrite R2, Hs. split; [| exact Hc].
    rewrite <- H0, <- Hl.
    destruct R5 as [[R5 _] | R5]; rewrite R5; [reflexivity |].
    rewrite legacy_invocations_app, legacy_invocations_hook_events.
    destruct (Render (sim w1)); apply app_nil_r.
  - intros Hle. rewrite Hb.
    destruct fuel as [| fuel]; cbn [stepLoop]; rewrite Hle;
      (eexists; split; [reflexivity |]);
      destruct (legacy_renderGate_log ubase (baseTime (sim w)) (simTime (sim w)) w0)
        as (_ & R2 & R3 & _ & R5);
      cbn zeta in *; rewrite R2, R3, B1, B4;
      (split; [| split; reflexivity]);
      rewrite <- H0;
      (destruct R5 as [[R5 _] | R5]; rewrite R5; [reflexivity |]);
      rewrite legacy_invocations_app, legacy_invocations_hook_events;
      destruct (Render (sim w0)); apply app_nil_r.
Qed.

(** X13. In the related revision the [Render] hook is given the
    simulation time: an iteration that returns has made at most one
    invocation of it, whose frame time is the [simTime] the stepping has
    reached and whose [when] is the calendar time of that; with the rate
    not limited ([rfps <= 0]) it has made exactly one. *)
Theorem legacy_render_gets_simTime (fuel : nat) (ubase : Z) (w w' : World)
  (f : Op) :
  Render (sim w) = Some f ->
  body fuel ubase w = Returned tt w' ->
  exists last,
    invocations HRender (trace w') = invocations HRender (trace w) ++ last /\
    (last = [] \/
     last = [(simTime (sim w'),
              realtime ubase (baseTime (sim w)) (simTime (sim w')))]) /\
    (rfps (sim w) <= 0 -> last <> []).
Proof.
  intros Hf Hrun.
  destruct (legacy_body_unfold fuel ubase w)
    as (w0 & Hb & B1 & B2 & B3 & B4 & B5 & B6 & B7).
  rewrite Hb in Hrun.
  pose proof (legacy_stepLoop_keeps fuel ubase (baseTime (sim w)) (hz (sim w))
                (simTime (sim w)) (clock w (reads w) - baseTime (sim w))%float
                w0) as (K1 & _ & _ & _ & K5 & _).
  destruct (stepLoop fuel ubase (baseTime (sim w)) (hz (sim w))
              (simTime (sim w)) (clock w (reads w) - baseTime (sim w))%float
              w0) as [s1 w1 |] eqn:Hst; [| discriminate].
  injection Hrun as <-. cbn [world_of] in *.
  assert (Hs1 : simTime (sim w1) = s1).
  { destruct fuel as [| fuel].
    - cbn [stepLoop] in Hst.
      destruct (simTime (sim w) + hz (sim w)
                  <=? clock w (reads w) - baseTime (sim w))%float;
        [discriminate |].
      injection Hst as <- <-. rewrite B1. reflexivity.
    - clear K1 K5. revert Hst. generalize (S fuel) as n.
      generalize (hz (sim w)) as h.
      generalize (clock w (reads w) - baseTime (sim w))%float as t.
      assert (Hs0 : simTime (sim w0) = simTime (sim w)) by (rewrite B1; reflexivity).
      revert Hs0. generalize (simTime (sim w)) as s0. generalize w0 as v.
      intros v s0 Hs0 t h n. revert v s0 Hs0.
      induction n as [| n IH]; intros v s0 Hs0; cbn [stepLoop].
      + destruct (s0 + h <=? t)%float; [discriminate |].
        intros H. injection H as <- <-. exact Hs0.
      + destruct (s0 + h <=? t)%float.
        * apply IH. reflexivity.
        * intros H. injection H as <- <-. exact Hs0. }
  assert (H0 : invocations HRender (trace w1) = invocations HRender (trace w)).
  { rewrite (K5 HRender eq_refl eq_refl), B7, legacy_invocations_app,
      legacy_invocations_hook_events.
    destruct (PreFrame (sim w)); apply app_nil_r. }
  assert (Hf1 : Render (sim w1) = Some f).
  { rewrite (fixed_Render _ _ K1), B1. exact Hf. }
  assert (Hr1 : rfps (sim w1) = rfps (sim w)).
  { rewrite (fixed_rfps _ _ K1), B1. reflexivity. }
  destruct (legacy_renderGate_log ubase (baseTime (sim w)) s1 w1)
    as (_ & R2 & _ & _ & R5).
  cbn zeta in *. rewrite R2, Hs1.
  destruct R5 as [[R5 Hlim] | R5]; rewrite R5.
  - exists []. rewrite app_nil_r. split; [exact H0 |].
    split; [left; reflexivity |]. rewrite Hr1 in Hlim. lia.
  - exists [(s1, realtime ubase (baseTime (sim w)) s1)].
    rewrite legacy_invocations_app, legacy_invocations_hook_events, Hf1, H0.
    cbn [Hook_eqb]. split; [reflexivity |].
    split; [right; reflexivity | discriminate].
Qed.

Lemma legacy_others_keeps (acts : list Act) :
  forall w, sim (others acts w) = sim w /\ trace (others acts w) = trace w /\
            clock (others acts w) = clock w /\
            (forall c, fired w c = true -> fired (others acts w) c = true).
Proof.
  induction acts as [| a acts IH]; intros w; cbn; [auto |].
  destruct (IH (act a w)) as (H1 & H2 & H3 & H4). unfold others in *.
  rewrite H1, H2, H3.
  destruct a as [c | op | op | g]; cbn; repeat split; auto.
  intros c0 Hc. apply H4. destruct c0 as [| j]; cbn in *; [exact Hc |].
  rewrite Hc. apply orb_true_r.
Qed.

Lemma legacy_runLoop_returned (fuel : nat) ubase stop (rounds : list (list Act)) :
  forall w e w',
    runLoop fuel ubase stop rounds w = Returned e w' ->
    e = None /\ fired w' stop = true.
Proof.
  induction rounds as [| acts rounds IH]; intros w e w'; cbn [runLoop];
    [discriminate |].
  destruct (fired (others acts w) stop) eqn:Hf.
  - intros H. injection H as <- <-. auto.
  - destruct (body fuel ubase (others acts w)) as [[] w1 | w1];
      [apply IH | discriminate].
Qed.

(** X14. In the related revision [Run] returns nil: an iteration that
    begins with the stop channel closed makes [Run] return the nil error,
    and whenever [Run] returns, the stop channel is closed and the error
    is nil. *)
Theorem legacy_Run_returns_nil :
  (forall fuel ubase stop acts rest (w : World),
      fired (others acts w) stop = true ->
      runLoop fuel ubase stop (acts :: rest) w = Returned None (others acts w)) /\
  (forall fuel rounds (w : World) e w',
      Run fuel rounds w = Returned e w' ->
      e = None /\ fired w' (stopped (sim w)) = true).
Proof.
  split.
  - intros fuel ubase stop acts rest w Hf. cbn [runLoop]. rewrite Hf.
    reflexivity.
  - intros fuel rounds w e w'. unfold Run, start.
    cbn [GetTime stopped sim]. apply legacy_runLoop_returned.
Qed.

Lemma legacy_ladder_app when h s l1 s1 l2 s2 :
  ladder when h s l1 s1 -> ladder when h s1 l2 s2 ->
  ladder when h s (l1 ++ l2) s2.
Proof.
  revert s. induction l1 as [| [ft rt] l1 IH]; intros s; cbn.
  - intros ->. auto.
  - intros (-> & -> & Hc) H2. repeat split. eapply IH; eassumption.
Qed.

(** One iteration, as far as it got: the passes, what is fixed, and the
    log growing. *)
Lemma legacy_body_ladder (fuel : nat) (ubase : Z) (f : Op) (w : World) :
  Frame (sim w) = Some f ->
  fixed w (world_of (body fuel ubase w)) /\
  (exists t, trace (world_of (body fuel ubase w)) = trace w ++ t) /\
  exists l,
    invocations HFrame (trace (world_of (body fuel ubase w)))
    = invocations HFrame (trace w) ++ l /\
    ladder (realtime ubase (baseTime (sim w))) (hz (sim w)) (simTime (sim w)) l
           (simTime (sim (world_of (body fuel ubase w)))).
Proof.
  intros Hf.
  destruct (legacy_body_unfold fuel ubase w)
    as (w0 & Hb & B1 & B2 & B3 & B4 & B5 & B6 & B7).
  rewrite Hb.
  assert (H0 : invocations HFrame (trace w0) = invocations HFrame (trace w)).
  { rewrite B7, legacy_invocations_app, legacy_invocations_hook_events.
    destruct (PreFrame (sim w)); apply app_nil_r. }
  assert (F0 : fixed w w0) by (constructor; rewrite ?B1, ?B2, ?B6; reflexivity).
  pose proof (legacy_stepLoop_keeps fuel ubase (baseTime (sim w)) (hz (sim w))
                (simTime (sim w)) (clock w (reads w) - baseTime (sim w))%float
                w0) as (K1 & _ & _ & _ & _ & t1 & K6).
  destruct (legacy_stepLoop_ladder fuel ubase (baseTime (sim w)) f (hz (sim w))
              (simTime (sim w)) (clock w (reads w) - baseTime (sim w))%float w0)
    as (l & Hl & Hc); [rewrite B1; exact Hf | rewrite B1; reflexivity |].
  destruct (stepLoop fuel ubase (baseTime (sim w)) (hz (sim w))
              (simTime (sim w)) (clock w (reads w) - baseTime (sim w))%float
              w0) as [s1 w1 | w1]; cbn [world_of] in *.
  - destruct (legacy_renderGate_log ubase (baseTime (sim w)) s1 w1)
      as (R1 & R2 & _ & _ & R5).
    cbn zeta in *.
    split; [eapply legacy_fixed_trans; [| exact R1];
            eapply legacy_fixed_trans; eassumption |].
    split.
    + destruct R5 as [[R5 _] | R5]; rewrite R5, K6, B7, <- ?app_assoc; eauto.
    + exists l. rewrite R2. split; [| exact Hc].
      rewrite <- H0, <- Hl.
      destruct R5 as [[R5 _] | R5]; rewrite R5; [reflexivity |].
      rewrite legacy_invocations_app, legacy_invocations_hook_events.
      destruct (Render (sim w1)); apply app_nil_r.
  - split; [eapply legacy_fixed_trans; eassumption |].
    split; [rewrite K6, B7, <- app_assoc; eauto |].
    exists l. rewrite <- H0. auto.
Qed.

Lemma legacy_runLoop_ladder (fuel : nat) ubase stop (f : Op)
  (rounds : list (list Act)) :
  forall w,
    Frame (sim w) = Some f ->
    fixed w (world_of (runLoop fuel ubase stop rounds w)) /\
    (exists t, trace (world_of (runLoop fuel ubase stop rounds w)) = trace w ++ t) /\
    exists l,
      invocations HFrame (trace (world_of (runLoop fuel ubase stop rounds w)))
      = invocations HFrame (trace w) ++ l /\
      ladder (realtime ubase (baseTime (sim w))) (hz (sim w)) (simTime (sim w)) l
             (simTime (sim (world_of (runLoop fuel ubase stop rounds w)))).
Proof.
  induction rounds as [| acts rounds IH]; intros w Hf; cbn [runLoop].
  - split; [apply legacy_fixed_refl |].
    split; exists []; cbn; rewrite app_nil_r; auto.
  - destruct (legacy_others_keeps acts w) as (O1 & O2 & O3 & _).
    assert (F0 : fixed w (others acts w))
      by (constructor; rewrite ?O1, ?O3; try reflexivity;
          clear; induction acts as [| a acts IH] in w |- *; cbn;
          [reflexivity |];
          unfold others in IH; rewrite IH;
          destruct a; reflexivity).
    destruct (fired (others acts w) stop); cbn [world_of].
    + split; [exact F0 |]. rewrite O1, O2.
      split; exists []; cbn; rewrite app_nil_r; auto.
    + destruct (legacy_body_ladder fuel ubase f (others acts w))
        as (B1 & (t & B2) & l & B3 & B4); [rewrite O1; exact Hf |].
      rewrite O1, O2 in *.
      destruct (body fuel ubase (others acts w)) as [[] w1 | w1];
        cbn [world_of] in *.
      * destruct (IH w1) as (I1 & (t2 & I2) & l2 & I3 & I4).
        { rewrite (fixed_Frame _ _ B1), O1. exact Hf. }
        rewrite (fixed_baseTime _ _ B1), (fixed_hz _ _ B1), O1 in I4.
        split; [eapply legacy_fixed_trans; [exact F0 |];
                eapply legacy_fixed_trans; eassumption |].
        split; [exists (t ++ t2); rewrite I2, B2, app_assoc; reflexivity |].
        exists (l ++ l2). rewrite I3, B3, <- app_assoc.
        split; [reflexivity | eapply legacy_ladder_app; eassumption].
      * split; [eapply legacy_fixed_trans; eassumption |].
        split; [eauto |]. exists l. auto.
Qed.

(** X15. The related revision keeps a fixed timestep. Nothing changes the
    rates during [Run], and over the whole run the frame times of the
    [Frame] hook climb from 0 in steps of the one [hz]: the first is 0,
    each next one is the one before plus [hz], and [simTime] is the last
    plus [hz], however late or early the iterations come. *)
Theorem legacy_fixed_timestep (fuel : nat) (rounds : list (list Act)) (w : World)
  (f : Op) :
  Frame (sim w) = Some f ->
  let w' := world_of (Run fuel rounds w) in
  hz (sim w') = hz (sim w) /\ fps (sim w') = fps (sim w) /\
  exists l,
    invocations HFrame (trace w') = invocations HFrame (trace w) ++ l /\
    ladder (realtime (unix_now w) (clock w (reads w))) (hz (sim w)) 0%float l
           (simTime (sim w')).
Proof.
  intros Hf w'. subst w'.
  change (Run fuel rounds w)
    with (runLoop fuel (unix_now w) (stopped (sim w)) rounds (started w)).
  destruct (legacy_runLoop_ladder fuel (unix_now w) (stopped (sim w)) f rounds
              (started w) Hf) as (F1 & _ & l & Hl & Hc).
  rewrite (fixed_hz _ _ F1), (fixed_fps _ _ F1).
  split; [reflexivity |]. split; [reflexivity |].
  exists l. split; [exact Hl | exact Hc].
Qed.





(** ** The properties at the scenarios *)

Lemma legacy_steps_while_a_full_step_fits_witness :
  (exists l,
      invocations HFrame (trace (world_of (body 4 1000 legacy_late)))
      = invocations HFrame (trace legacy_late) ++ l /\
      full_steps (realtime 1000 (baseTime (sim legacy_late)))
                 (hz (sim legacy_late))
                 (clock legacy_late (reads legacy_late)
                  - baseTime (sim legacy_late))%float
                 (simTime (sim legacy_late)) l
                 (simTime (sim (world_of (body 4 1000 legacy_late))))) /\
  (exists w',
      body 4 1000 legacy_half_step = Returned tt w' /\
      invocations HFrame (trace w') = invocations HFrame (trace legacy_half_step) /\
      simTime (sim w') = simTime (sim legacy_half_step) /\
      sendq w' = sendq legacy_half_step).
Proof.
  split.
  - apply (proj1 (legacy_steps_while_a_full_step_fits 4 1000 legacy_late)
             legacy_idle).
    + reflexivity.
    + vm_compute. reflexivity.
  - apply (proj2 (legacy_steps_while_a_full_step_fits 4 1000 legacy_half_step)).
    vm_compute. reflexivity.
Defined.

Lemma legacy_render_gets_simTime_witness :
  exists last,
    invocations HRender (trace (world_of (body 4 1000 legacy_late)))
    = invocations HRender (trace legacy_late) ++ last /\
    (last = [] \/
     last = [(simTime (sim (world_of (body 4 1000 legacy_late))),
              realtime 1000 (baseTime (sim legacy_late))
                       (simTime (sim (world_of (body 4 1000 legacy_late)))))]) /\
    (rfps (sim legacy_late) <= 0 -> last <> []).
Proof.
  apply (legacy_render_gets_simTime 4 1000 legacy_late
           (world_of (body 4 1000 legacy_late)) legacy_idle).
  - reflexivity.
  - vm_compute. reflexivity.
Defined.

Lemma legacy_Run_returns_nil_witness :
  runLoop 4 1000 (chan_ref 0) [[ActClose 0]; []] legacy_half_step
  = Returned None (others [ActClose 0] legacy_half_step) /\
  ((None : error) = None /\
   fired (world_of legacy_stopped_run)
         (stopped (sim (legacy_world_at (legacy_demo_sim 0)
                                        [0; 0.25; 1.25; 1.5]%float))) = true).
Proof.
  split.
  - apply (proj1 legacy_Run_returns_nil 4%nat 1000 (chan_ref 0)
             [ActClose 0] [[]] legacy_half_step).
    reflexivity.
  - apply (proj2 legacy_Run_returns_nil 4%nat [[]; []; [ActClose 0]]
             (legacy_world_at (legacy_demo_sim 0) [0; 0.25; 1.25; 1.5]%float)
             None (world_of legacy_stopped_run)).
    vm_compute. reflexivity.
Defined.

Lemma legacy_fixed_timestep_witness :
  let w := legacy_world_at (legacy_demo_sim 0) [0; 0.25; 1.25; 1.5]%float in
  let w' := world_of (Run 4 [[]; []] w) in
  hz (sim w') = hz (sim w) /\ fps (sim w') = fps (sim w) /\
  exists l,
    invocations HFrame (trace w') = invocations HFrame (trace w) ++ l /\
    ladder (realtime (unix_now w) (clock w (reads w))) (hz (sim w)) 0%float l
           (simTime (sim w')).
Proof.
  apply (legacy_fixed_timestep 4 [[]; []]
           (legacy_world_at (legacy_demo_sim 0) [0; 0.25; 1.25; 1.5]%float)
           legacy_idle).
  reflexivity.
Defined.


End LegacyFacts.
